(** * Expense Tracker Pro: the persistence and aggregation engine

    A shallow embedding of [tracker.py]: the two SQLite tables and the
    statements [Database] and [ExpenseTracker] run on them, the pandas
    operations the pages apply to the result frames, and the properties
    of the engine stated over them.

    Conventions of the embedding.
    - A calendar date is its proleptic Gregorian ordinal
      ([date.toordinal()]): the order of the ISO text that [ORDER BY date]
      compares and the order of the pandas timestamps both coincide with
      the order of ordinals.
    - A [datetime] is a number of microseconds; midnight of day [d] is
      [d * 86400000000].
    - The column [amount REAL] holds exact rationals ([Q]); numeric results
      are compared with [==].  Rounding error of binary floating point is
      outside the model.
    - [CURRENT_TIMESTAMP] and [datetime.now()] are read from an explicit
      clock argument [now]. *)

From Stdlib Require Import String Ascii OrderedTypeEx.
From Stdlib Require Import ZArith QArith Qround Qabs Bool Lia Lqa.
From Stdlib Require Import List Permutation Sorted Relations.
Import ListNotations.

Local Open Scope string_scope.
Local Open Scope Z_scope.
Local Open Scope list_scope.

(** * Part I: the program *)

(** ** The schema ([Database.init_database]) *)

(** A row of [users]. *)
Record user_row := mk_user {
  u_id : Z;
  username : string;
  password_hash : string;
  email : string;
  u_created_at : Z
}.

(** A row of [expenses]. *)
Record expense_row := mk_expense {
  e_id : Z;
  user_id : Z;
  e_date : Z;
  e_category : string;
  e_amount : Q;
  e_description : string;
  e_created_at : Z
}.

(** The database file: each table with the counter [sqlite_sequence]
    keeps for its [AUTOINCREMENT] key (the largest id ever handed out). *)
Record db_state := mk_db {
  users : list user_row;
  users_seq : Z;
  expenses : list expense_row;
  expenses_seq : Z
}.

(** [CREATE TABLE IF NOT EXISTS] on a new file. *)
Definition init_database : db_state :=
  {| users := []; users_seq := 0; expenses := []; expenses_seq := 0 |}.

(** ** [class Database] *)

Section Database.
(** [hashlib.sha256(password.encode()).hexdigest()]: the digest is the
    library's; the engine only calls it. *)
Variable sha256_hexdigest : string -> string.

Definition hash_password (password : string) : string :=
  sha256_hexdigest password.

(** [INSERT INTO users]: the [UNIQUE] constraint on [username] raises
    [IntegrityError] and the statement changes nothing. *)
Definition create_user (db : db_state) (now : Z)
    (uname password mail : string) : db_state * (bool * string) :=
  let digest := hash_password password in
  if existsb (fun r => (username r =? uname)%string) (users db)
  then (db, (false, "Username already exists!"))
  else
    let new_id := users_seq db + 1 in
    ({| users := users db ++ [mk_user new_id uname digest mail now];
        users_seq := new_id;
        expenses := expenses db;
        expenses_seq := expenses_seq db |},
     (true, "User created successfully!")).

(** [SELECT id, username FROM users WHERE username = ? AND
    password_hash = ?] with [fetchone]; a row [(id, username)] is never
    falsy, so [user if user else None] is the row or [None]. *)
Definition credentials_match (uname digest : string) (r : user_row) : bool :=
  (username r =? uname)%string && (password_hash r =? digest)%string.

Definition authenticate_user (db : db_state) (uname password : string)
    : option (Z * string) :=
  let digest := hash_password password in
  match find (credentials_match uname digest) (users db) with
  | Some r => Some (u_id r, username r)
  | None => None
  end.
End Database.

(** ** Stable sorting

    [before x y] says that [x] may stand in front of [y].  [insert]
    puts a new element in front of the first one it may precede, so that
    folding it from the right keeps equal keys in their input order. *)
Section StableSort.
Context {A : Type}.
Variable before : A -> A -> bool.

Fixpoint insert (x : A) (l : list A) : list A :=
  match l with
  | [] => [x]
  | y :: t => if before x y then x :: l else y :: insert x t
  end.

Definition isort (l : list A) : list A := fold_right insert [] l.
End StableSort.

(** ** [class ExpenseTracker]

    [self.user_id] is the argument [uid] of every method. *)

(** A row of the frame [get_expenses] returns: the selected columns
    [id, date, category, amount, description, created_at].  After
    [pd.to_datetime] the column [date] holds the timestamp of midnight
    of the day; it is kept as the day's ordinal. *)
Record frame_row := mk_frame_row {
  id : Z;
  date : Z;
  category : string;
  amount : Q;
  description : string;
  created_at : Z
}.

Definition frame := list frame_row.

(** [df.empty] *)
Definition empty {A : Type} (df : list A) : bool :=
  match df with [] => true | _ => false end.

(** [len(df)] *)
Definition len {A : Type} (df : list A) : Z := Z.of_nat (length df).

(** [ORDER BY date DESC]: the later date first.  SQL leaves the order of
    rows of one date open; SQLite's sorter returns them in the order of the
    scan, which is what the stable sort gives. *)
Definition date_desc (a b : frame_row) : bool := date b <=? date a.

Definition select_columns (r : expense_row) : frame_row :=
  mk_frame_row (e_id r) (e_date r) (e_category r) (e_amount r)
               (e_description r) (e_created_at r).

Definition owned_by (uid : Z) (r : expense_row) : bool := user_id r =? uid.

(** [INSERT INTO expenses ... VALUES (?, ?, ?, ?, ?)]; the method returns
    [True]. *)
Definition add_expense (db : db_state) (now uid : Z) (d : Z) (cat : string)
    (amt : Q) (desc : string) : db_state * bool :=
  let new_id := expenses_seq db + 1 in
  ({| users := users db;
      users_seq := users_seq db;
      expenses := expenses db ++ [mk_expense new_id uid d cat amt desc now];
      expenses_seq := new_id |},
   true).

(** [SELECT ... FROM expenses WHERE user_id = ? ORDER BY date DESC]. *)
Definition get_expenses (db : db_state) (uid : Z) : frame :=
  isort date_desc (map select_columns (filter (owned_by uid) (expenses db))).

(** [datetime] arithmetic, in microseconds. *)
Definition usec_per_day : Z := 86400000000.
Definition to_datetime (d : Z) : Z := d * usec_per_day.
Definition timedelta (days : Z) : Z := days * usec_per_day.

(** Python truth values of the two optional arguments: [None], the empty
    string and [0] are false. *)
Definition truthy_str (s : option string) : bool :=
  match s with
  | Some s => negb (s =? "")%string
  | None => false
  end.

Definition truthy_int (n : option Z) : bool :=
  match n with
  | Some n => negb (n =? 0)
  | None => false
  end.

(** The body of [get_filtered_expenses] on the frame it has read. *)
Definition filter_frame (df : frame) (now : Z)
    (filter_category : option string) (days : option Z) : frame :=
  if negb (empty df) then
    let df :=
      match filter_category with
      | Some c =>
          if truthy_str filter_category && negb (c =? "All")%string
          then filter (fun r => (category r =? c)%string) df
          else df
      | None => df
      end in
    let df :=
      match days with
      | Some n =>
          if truthy_int days
          then
            let cutoff_date := now - timedelta n in
            filter (fun r => cutoff_date <=? to_datetime (date r)) df
          else df
      | None => df
      end in
    df
  else df.

Definition get_filtered_expenses (db : db_state) (uid now : Z)
    (filter_category : option string) (days : option Z) : frame :=
  filter_frame (get_expenses db uid) now filter_category days.

(** [DELETE FROM expenses WHERE id = ? AND user_id = ?]; [rowcount] is the
    number of rows the statement removed. *)
Definition delete_matches (expense_id uid : Z) (r : expense_row) : bool :=
  (e_id r =? expense_id) && (user_id r =? uid).

Definition delete_expense (db : db_state) (uid expense_id : Z)
    : db_state * bool :=
  let affected := len (filter (delete_matches expense_id uid) (expenses db)) in
  ({| users := users db;
      users_seq := users_seq db;
      expenses :=
        filter (fun r => negb (delete_matches expense_id uid r)) (expenses db);
      expenses_seq := expenses_seq db |},
   0 <? affected).

(** ** pandas: [groupby(key)[amount].agg(['sum', 'count'])]

    The groups come out in ascending key order ([sort=True]); every row is
    added to the running sum and count of its key. *)
Section GroupBy.
Context {K : Type}.
Variable cmp : K -> K -> comparison.

Fixpoint upsert (k : K) (v : Q) (acc : list (K * (Q * Z)))
    : list (K * (Q * Z)) :=
  match acc with
  | [] => [(k, (v, 1))]
  | (k', (s, c)) :: t =>
      match cmp k k' with
      | Lt => (k, (v, 1)) :: acc
      | Eq => (k', ((s + v)%Q, c + 1)) :: t
      | Gt => (k', (s, c)) :: upsert k v t
      end
  end.

Definition groupby_agg (rows : list (K * Q)) : list (K * (Q * Z)) :=
  fold_left (fun acc kv => upsert (fst kv) (snd kv) acc) rows [].

(** The rows of one group. *)
Definition same_key (k k' : K) : bool :=
  match cmp k k' with
  | Eq => true
  | _ => false
  end.

Definition group_rows (k : K) (rows : list (K * Q)) : list (K * Q) :=
  filter (fun kv => same_key k (fst kv)) rows.

(** [groupby(key)[amount].sum()] *)
Definition groupby_sum (rows : list (K * Q)) : list (K * Q) :=
  map (fun e => (fst e, fst (snd e))) (groupby_agg rows).
End GroupBy.

(** [Series.sum()] *)
Definition Qsum (l : list Q) : Q := fold_left Qplus l 0%Q.

(** [numpy.rint]: the nearest integer, the even one at a tie. *)
Definition rint (q : Q) : Z :=
  let f := Qfloor q in
  match (q - inject_Z f ?= 1 # 2)%Q with
  | Lt => f
  | Gt => f + 1
  | Eq => if Z.even f then f else f + 1
  end.

(** [Series.round(2)] *)
Definition round2 (q : Q) : Q := (rint (q * 100) # 100)%Q.

(** A row of the summary frame; the index is the category. *)
Record summary_row := mk_summary {
  s_category : string;
  Total : Q;
  Count : Z;
  Percentage : Q
}.

Definition categorized (df : frame) : list (string * Q) :=
  map (fun r => (category r, amount r)) df.

Definition category_groups (df : frame) : list (string * (Q * Z)) :=
  groupby_agg String.compare (categorized df).

(** [summary['Percentage'] = (summary['Total'] / summary['Total'].sum()
    * 100).round(2)] *)
Definition with_percentage (g : list (string * (Q * Z))) : list summary_row :=
  let grand := Qsum (map (fun e => fst (snd e)) g) in
  map (fun e =>
         mk_summary (fst e) (fst (snd e)) (snd (snd e))
                    (round2 (fst (snd e) / grand * 100)%Q)) g.

Definition summary_unsorted (df : frame) : list summary_row :=
  with_percentage (category_groups df).

(** [sort_values('Total', ascending=False)].  What pandas documents of
    the result is [sort_values_Total_desc]: the same rows, in descending
    order of the column. *)
Definition Total_desc (a b : summary_row) : bool := Qle_bool (Total b) (Total a).

Definition sort_values_Total_desc (inp out : list summary_row) : Prop :=
  Permutation inp out /\
  StronglySorted (fun a b => Total_desc a b = true) out.

(** What it returns: pandas reverses the column, sorts it and reverses
    the result, so that rows of equal [Total] come out in the order they
    have in the frame, as they do on the summary of two categories of
    equal total. *)
Definition sort_values_stable (inp : list summary_row) : list summary_row :=
  isort Total_desc inp.

(** [get_category_summary]: [pd.DataFrame()] for an empty frame;
    the results the documentation of the sort allows, and below the
    result the method returns. *)
Definition get_category_summary (db : db_state) (uid : Z)
    (out : list summary_row) : Prop :=
  let df := get_expenses db uid in
  if empty df then out = []
  else sort_values_Total_desc (summary_unsorted df) out.

Definition get_category_summary_stable (db : db_state) (uid : Z)
    : list summary_row :=
  let df := get_expenses db uid in
  if empty df then [] else sort_values_stable (summary_unsorted df).

(** ** The pages of [main] *)

(** Python exceptions the arithmetic of the pages can raise. *)
Inductive exn := ZeroDivisionError.

Inductive outcome (A : Type) :=
| Ok (a : A)
| Raise (e : exn).
Arguments Ok {A} a.
Arguments Raise {A} e.

Definition bind {A B : Type} (m : outcome A) (k : A -> outcome B) : outcome B :=
  match m with
  | Ok a => k a
  | Raise e => Raise e
  end.

Notation "x <- m ;; k" := (bind m (fun x => k))
  (at level 61, m at next level, right associativity).

(** [x / n] for an [int] divisor. *)
Definition truediv (x : Q) (n : Z) : outcome Q :=
  if n =? 0 then Raise ZeroDivisionError else Ok (x / inject_Z n)%Q.

Record stats := mk_stats {
  total_spent : Q;
  num_transactions : Z;
  avg_transaction : Q
}.

(** Dashboard, lines 336-338. *)
Definition dashboard_stats (expenses_df : frame) : outcome stats :=
  let total := Qsum (map amount expenses_df) in
  let n := len expenses_df in
  avg <- (if 0 <? n then truediv total n else Ok 0%Q) ;;
  Ok (mk_stats total n avg).

(** Monthly Report, lines 523-525: the division has no guard of its own. *)
Definition monthly_report_stats (monthly_data : frame) : outcome stats :=
  let total := Qsum (map amount monthly_data) in
  let n := len monthly_data in
  avg <- truediv total n ;;
  Ok (mk_stats total n avg).

(** What a page shows in place of the figures for an empty frame (the
    month and the year of the report's notice are left out). *)
Inductive view (A : Type) :=
| Notice (msg : string)
| Figures (a : A).
Arguments Notice {A} msg.
Arguments Figures {A} a.

Definition dashboard_page (expenses_df : frame) : outcome (view stats) :=
  if empty expenses_df
  then Ok (Notice "No expenses recorded yet. Start by adding your first expense!")
  else s <- dashboard_stats expenses_df ;; Ok (Figures s).

Definition monthly_report_page (monthly_data : frame) : outcome (view stats) :=
  if empty monthly_data
  then Ok (Notice "No expenses found")
  else s <- monthly_report_stats monthly_data ;; Ok (Figures s).

(** [Series.tail(n)] for [n >= 0]: the last [n] entries. *)
Definition tail {A : Type} (n : nat) (l : list A) : list A :=
  skipn (length l - n) l.

(** [expenses_df.groupby(expenses_df['date'].dt.date)['amount'].sum()
    .tail(n)]; the dashboard takes [n = 30]. *)
Definition dated (df : frame) : list (Z * Q) :=
  map (fun r => (date r, amount r)) df.

Definition daily_series (n : nat) (expenses_df : frame) : list (Z * Q) :=
  tail n (groupby_sum Z.compare (dated expenses_df)).

Definition daily_spending (expenses_df : frame) : list (Z * Q) :=
  daily_series 30 expenses_df.

(** [DataFrame.nlargest(n, 'amount')] with the default [keep='first']:
    the first [n] rows of the frame in descending order of the column,
    rows of equal amount in their order in the frame; no row for
    [n <= 0]. *)
Definition amount_desc (a b : frame_row) : bool :=
  Qle_bool (amount b) (amount a).

Definition nlargest (n : Z) (df : frame) : frame :=
  firstn (Z.to_nat n) (isort amount_desc df).

(** Monthly Report, line 547: the columns kept for the table. *)
Definition top_columns (r : frame_row) : Z * string * Q * string :=
  (date r, category r, amount r, description r).

Definition top_expenses (monthly_data : frame) : list (Z * string * Q * string) :=
  map top_columns (nlargest 5 monthly_data).

(** Add Expense, lines 392-398: the form's guard around [add_expense]. *)
Inductive flash :=
| Added (amt : Q) (cat : string)
| Error (msg : string).

Definition Qlt_bool (x y : Q) : bool := negb (Qle_bool y x).

Definition add_expense_page (db : db_state) (now uid : Z) (expense_date : Z)
    (cat : string) (amt : Q) (desc : string) : db_state * flash :=
  if Qlt_bool 0 amt
  then (fst (add_expense db now uid expense_date cat amt desc), Added amt cat)
  else (db, Error "Amount must be greater than 0").

(** ** States of the database *)

(** What the primary keys and the [UNIQUE] constraint keep true. *)
Definition ids_in_range (ids : list Z) (seq : Z) : Prop :=
  0 <= seq /\ NoDup ids /\ Forall (fun i => 0 < i <= seq) ids.

Definition wf_db (db : db_state) : Prop :=
  ids_in_range (map e_id (expenses db)) (expenses_seq db) /\
  ids_in_range (map u_id (users db)) (users_seq db) /\
  NoDup (map username (users db)).

(** The states the engine can bring a new database file to. *)
Inductive reachable (sha : string -> string) : db_state -> Prop :=
| reach_init : reachable sha init_database
| reach_create_user db now uname password mail :
    reachable sha db ->
    reachable sha (fst (create_user sha db now uname password mail))
| reach_add_expense db now uid d cat amt desc :
    reachable sha db ->
    reachable sha (fst (add_expense db now uid d cat amt desc))
| reach_delete_expense db uid expense_id :
    reachable sha db ->
    reachable sha (fst (delete_expense db uid expense_id)).

(** ** The wording of the specification

    [filter(records, category?, sinceDays?)] as the specification words
    it: the category filter whenever a category other than "All" is given,
    the recency filter whenever [sinceDays] is given, both at once. *)
Definition filter_spec (records : frame) (now : Z)
    (cat : option string) (sinceDays : option Z) : frame :=
  filter (fun r =>
            match cat with
            | Some c => (c =? "All")%string || (category r =? c)%string
            | None => true
            end
            &&
            match sinceDays with
            | Some n => now - timedelta n <=? to_datetime (date r)
            | None => true
            end) records.


(** The two tests [filter_frame] makes of a row. *)
Definition keeps_category (filter_category : option string) (r : frame_row)
    : bool :=
  match filter_category with
  | Some c =>
      (c =? "")%string || (c =? "All")%string || (category r =? c)%string
  | None => true
  end.

Definition keeps_recent (now : Z) (days : option Z) (r : frame_row) : bool :=
  match days with
  | Some n => (n =? 0) || (now - timedelta n <=? to_datetime (date r))
  | None => true
  end.

(** [subseq l1 l2]: [l1] is [l2] with some entries left out, the others
    in their order. *)
Inductive subseq {A : Type} : list A -> list A -> Prop :=
| subseq_nil : subseq [] []
| subseq_skip x l1 l2 : subseq l1 l2 -> subseq l1 (x :: l2)
| subseq_keep x l1 l2 : subseq l1 l2 -> subseq (x :: l1) (x :: l2).

(** ** Sample data

    The scenario of the specification: alice (user 1) records three
    expenses; bob is user 2. *)
Definition toy_digest (password : string) : string :=
  String.append "sha256:" password.

Definition alice_only : db_state :=
  fst (create_user toy_digest init_database 0 "alice" "wonderland" "").

Definition sample_users : db_state :=
  fst (create_user toy_digest alice_only 0 "bob" "builder" "").

Definition sample_db : db_state :=
  fst (add_expense
         (fst (add_expense
                 (fst (add_expense sample_users 0 1 738890 "Food" (25 # 2) "lunch"))
                 0 1 738905 "Food" (15 # 2) "snack"))
         0 1 738917 "Transport" 30 "train").

Definition lunch_row : expense_row :=
  mk_expense 1 1 738890 "Food" (25 # 2) "lunch" 0.

(** bob records his rent next to alice's rows. *)
Definition shared_db : db_state :=
  fst (add_expense sample_db 0 2 738900 "Bills" 1200 "rent").

Definition rent_row : expense_row :=
  mk_expense 4 2 738900 "Bills" 1200 "rent" 0.

(** Two categories with the same total. *)
Definition tie_db : db_state :=
  fst (add_expense
         (fst (add_expense alice_only 0 1 738890 "Food" 10 "lunch"))
         0 1 738891 "Transport" 10 "bus").

(** ** The rest of the engine and of the pages *)

(** *** The calendar

    [dt.year] and [dt.month] of the midnight of a day: the year and the
    month of the calendar date with that ordinal, computed as
    [date.fromordinal] does. *)
Definition days_before_month (month : Z) : Z :=
  nth (Z.to_nat month) [-1; 0; 31; 59; 90; 120; 151; 181; 212; 243; 273; 304; 334] 0.

Definition days_in_month (month : Z) : Z :=
  nth (Z.to_nat month) [-1; 31; 28; 31; 30; 31; 30; 31; 31; 30; 31; 30; 31] 0.

Definition b2z (b : bool) : Z := if b then 1 else 0.

Definition ord2ymd (ordinal : Z) : Z * Z * Z :=
  let n := ordinal - 1 in
  let n400 := n / 146097 in
  let n := n mod 146097 in
  let year := n400 * 400 + 1 in
  let n100 := n / 36524 in
  let n := n mod 36524 in
  let n4 := n / 1461 in
  let n := n mod 1461 in
  let n1 := n / 365 in
  let n := n mod 365 in
  let year := year + (n100 * 100 + n4 * 4 + n1) in
  if (n1 =? 4) || (n100 =? 4) then (year - 1, 12, 31)
  else
    let leapyear := (n1 =? 3) && (negb (n4 =? 24) || (n100 =? 3)) in
    let month := Z.shiftr (n + 50) 5 in
    let preceding := days_before_month month + b2z ((2 <? month) && leapyear) in
    if n <? preceding
    then
      let month := month - 1 in
      let preceding :=
        preceding - (days_in_month month + b2z ((month =? 2) && leapyear)) in
      (year, month, n - preceding + 1)
    else (year, month, n - preceding + 1).

Definition dt_year (r : frame_row) : Z := fst (fst (ord2ymd (date r))).
Definition dt_month (r : frame_row) : Z := snd (fst (ord2ymd (date r))).

(** *** [ExpenseTracker.get_monthly_data] *)
Definition in_month (month year : Z) (r : frame_row) : bool :=
  (dt_month r =? month) && (dt_year r =? year).

Definition get_monthly_data (db : db_state) (uid month year : Z) : frame :=
  let df := get_expenses db uid in
  if empty df then [] else filter (in_month month year) df.

(** *** Analytics, line 497: [groupby(date.dt.to_period('M'))['amount']
    .sum()].  A monthly period is the pair of its year and its month;
    periods are ordered in time. *)
Definition period_compare (a b : Z * Z) : comparison :=
  match fst a ?= fst b with
  | Eq => snd a ?= snd b
  | c => c
  end.

Definition to_period_M (r : frame_row) : Z * Z := (dt_year r, dt_month r).

Definition monthly_spending (expenses_df : frame) : list (Z * Z * Q) :=
  groupby_sum period_compare (map (fun r => (to_period_M r, amount r)) expenses_df).

(** *** Dashboard, line 357, and the Summary sheet of the Excel export,
    line 164: [groupby('category')['amount'].sum()]. *)
Definition category_totals (expenses_df : frame) : list (string * Q) :=
  groupby_sum String.compare (categorized expenses_df).

(** Dashboard, lines 339-340. *)
Definition last_30_days_total (db : db_state) (uid now : Z) : Q :=
  let last_30_days := get_filtered_expenses db uid now None (Some 30) in
  if negb (empty last_30_days) then Qsum (map amount last_30_days) else 0%Q.

(** *** Monthly Report, lines 538-541: the breakdown of the month, with
    the total of the month as the denominator of the percentages. *)
Definition monthly_breakdown_unsorted (monthly_data : frame) : list summary_row :=
  let total := Qsum (map amount monthly_data) in
  map (fun e =>
         mk_summary (fst e) (fst (snd e)) (snd (snd e))
                    (round2 (fst (snd e) / total * 100)%Q))
      (category_groups monthly_data).

Definition monthly_breakdown (monthly_data : frame) (out : list summary_row)
    : Prop :=
  sort_values_Total_desc (monthly_breakdown_unsorted monthly_data) out.

(** *** View Expenses, lines 420-435: the four orders of the table.
    What pandas documents of [sort_values] leaves the order of rows of
    equal key open. *)
Inductive sort_by :=
| Date_Newest
| Date_Oldest
| Amount_High_Low
| Amount_Low_High.

Definition sort_by_before (o : sort_by) (a b : frame_row) : bool :=
  match o with
  | Date_Newest => date b <=? date a
  | Date_Oldest => date a <=? date b
  | Amount_High_Low => Qle_bool (amount b) (amount a)
  | Amount_Low_High => Qle_bool (amount a) (amount b)
  end.

Definition sort_values_by (o : sort_by) (inp out : frame) : Prop :=
  Permutation inp out /\
  StronglySorted (fun a b => sort_by_before o a b = true) out.

(** *** [login_page] and the session *)

(** [st.session_state]: a key that is absent reads as [None]; the
    tracker, when present, is an [ExpenseTracker] built for a user id. *)
Record session := mk_session {
  logged_in : bool;
  s_user_id : option Z;
  s_username : option string;
  tracker : option (option Z);
  current_user_id : option Z
}.

Definition new_session : session :=
  mk_session false None None None None.

Inductive toast :=
| St_success (msg : string)
| St_error (msg : string)
| St_warning (msg : string).

Definition nonempty (s : string) : bool := negb (s =? "")%string.

Section Pages.
Variable sha256_hexdigest : string -> string.

(** The Login form, lines 241-253. *)
Definition login_submit (db : db_state) (s : session)
    (uname password : string) : session * toast :=
  if nonempty uname && nonempty password then
    match authenticate_user sha256_hexdigest db uname password with
    | Some user =>
        (mk_session true (Some (fst user)) (Some (snd user))
                    (tracker s) (current_user_id s),
         St_success "Login successful!")
    | None => (s, St_error "Invalid username or password")
    end
  else (s, St_warning "Please fill in all fields").

(** The Sign Up form, lines 264-277. *)
Definition signup_submit (db : db_state) (now : Z)
    (new_username new_email new_password confirm_password : string)
    : db_state * toast :=
  if nonempty new_username && nonempty new_password then
    if (new_password =? confirm_password)%string then
      let r := create_user sha256_hexdigest db now
                           new_username new_password new_email in
      if fst (snd r)
      then (fst r, St_success (String.append (snd (snd r)) " Please login."))
      else (fst r, St_error (snd (snd r)))
    else (db, St_error "Passwords don't match")
  else (db, St_warning "Please fill in all required fields").
End Pages.

(** [main], lines 304-306: the tracker is built anew when there is none
    or when it was built for another user id. *)
Definition option_Z_eqb (a b : option Z) : bool :=
  match a, b with
  | Some x, Some y => x =? y
  | None, None => true
  | _, _ => false
  end.

Definition ensure_tracker (s : session) : session :=
  match tracker s with
  | Some _ =>
      if negb (option_Z_eqb (current_user_id s) (s_user_id s))
      then mk_session (logged_in s) (s_user_id s) (s_username s)
                      (Some (s_user_id s)) (s_user_id s)
      else s
  | None =>
      mk_session (logged_in s) (s_user_id s) (s_username s)
                 (Some (s_user_id s)) (s_user_id s)
  end.

(** The Logout button, lines 315-319. *)
Definition logout (s : session) : session :=
  mk_session false None None (tracker s) (current_user_id s).

(** The sessions a browser can be in: a login form submitted while
    logged out, and the head of [main] or the Logout button while logged
    in. *)
Inductive session_reachable (sha : string -> string) : session -> Prop :=
| sess_new : session_reachable sha new_session
| sess_login db s uname password :
    session_reachable sha s -> logged_in s = false ->
    session_reachable sha (fst (login_submit sha db s uname password))
| sess_main s :
    session_reachable sha s -> logged_in s = true ->
    session_reachable sha (ensure_tracker s)
| sess_logout s :
    session_reachable sha s -> logged_in s = true ->
    session_reachable sha (logout s).

(** What the steps of a session keep true: somebody logged in has an
    id, and a tracker in the session was built for the id remembered
    beside it. *)
Definition session_inv (s : session) : Prop :=
  (logged_in s = true -> exists uid, s_user_id s = Some uid) /\
  (forall t, tracker s = Some t -> current_user_id s = t).

(** *** The life of a database *)
Inductive db_step (sha : string -> string) : db_state -> db_state -> Prop :=
| step_create_user db now uname password mail :
    db_step sha db (fst (create_user sha db now uname password mail))
| step_add_expense db now uid d cat amt desc :
    db_step sha db (fst (add_expense db now uid d cat amt desc))
| step_delete_expense db uid expense_id :
    db_step sha db (fst (delete_expense db uid expense_id)).

Definition evolves (sha : string -> string) : db_state -> db_state -> Prop :=
  clos_refl_trans_n1 db_state (db_step sha).

(** *** More sample data *)
Definition sample_frame : frame := get_expenses sample_db 1.

Definition bob_session : session :=
  ensure_tracker
    (fst (login_submit toy_digest sample_users
            (logout (ensure_tracker
                       (fst (login_submit toy_digest sample_users new_session
                                          "alice" "wonderland"))))
            "bob" "builder")).

(** * Part II: properties *)

(** ** Lists *)

Section ListFacts.
Context {A : Type}.

Lemma filter_all_false (p : A -> bool) (l : list A) :
  (forall x, In x l -> p x = false) -> filter p l = [].
Proof.
  induction l as [|x l IH]; intros H; simpl; [reflexivity|].
  rewrite (H x (or_introl eq_refl)). apply IH. intros y Hy. apply H. now right.
Qed.

Lemma filter_all_true (p : A -> bool) (l : list A) :
  (forall x, In x l -> p x = true) -> filter p l = l.
Proof.
  induction l as [|x l IH]; intros H; simpl; [reflexivity|].
  rewrite (H x (or_introl eq_refl)). f_equal. apply IH. intros y Hy. apply H. now right.
Qed.

Lemma filter_nil_none (p : A -> bool) (l : list A) :
  filter p l = [] -> forall x, In x l -> p x = false.
Proof.
  intros H x Hx. destruct (p x) eqn:E; [|reflexivity].
  assert (Hin : In x (filter p l)) by (apply filter_In; auto).
  rewrite H in Hin. destruct Hin.
Qed.

Lemma existsb_false_all (p : A -> bool) (l : list A) :
  existsb p l = false -> forall x, In x l -> p x = false.
Proof.
  intros H x Hx. destruct (p x) eqn:E; [|reflexivity].
  assert (existsb p l = true) by (apply existsb_exists; eauto). congruence.
Qed.

Lemma filter_firstn_prefix (p : A -> bool) (n : nat) (l : list A) :
  exists rest, filter p l = filter p (firstn n l) ++ rest.
Proof.
  exists (filter p (skipn n l)).
  rewrite <- filter_app. now rewrite firstn_skipn.
Qed.
End ListFacts.

(** ** The stable sort *)

Section StableSortFacts.
Context {A : Type}.
Variable before : A -> A -> bool.

Lemma insert_perm x l : Permutation (x :: l) (insert before x l).
Proof.
  induction l as [|y t IH]; simpl; [reflexivity|].
  destruct (before x y); [reflexivity|].
  rewrite perm_swap. now apply perm_skip.
Qed.

Lemma isort_perm l : Permutation l (isort before l).
Proof.
  induction l as [|x l IH]; simpl; [constructor|].
  rewrite <- insert_perm. now apply perm_skip.
Qed.

Lemma isort_In x l : In x (isort before l) <-> In x l.
Proof.
  split; apply Permutation_in; [symmetry|]; apply isort_perm.
Qed.

Lemma isort_length l : length (isort before l) = length l.
Proof. symmetry. apply Permutation_length, isort_perm. Qed.

(** Inserting leaves a class of mutually interchangeable elements in
    its order, with the new element in front when it is of the class. *)
Lemma filter_insert (p : A -> bool) x l :
  (forall y, In y l -> p x = true -> p y = true -> before x y = true) ->
  filter p (insert before x l) = filter p (x :: l).
Proof.
  induction l as [|y t IH]; intros H; simpl; [reflexivity|].
  destruct (before x y) eqn:E; [reflexivity|].
  simpl. destruct (p y) eqn:Py.
  - destruct (p x) eqn:Px.
    + rewrite (H y (or_introl eq_refl) eq_refl Py) in E. discriminate.
    + rewrite IH by (intros; discriminate). simpl. now rewrite Px.
  - rewrite IH by (intros z Hz; apply H; now right).
    simpl. reflexivity.
Qed.

Lemma filter_isort (p : A -> bool) l :
  (forall x y, p x = true -> p y = true -> before x y = true) ->
  filter p (isort before l) = filter p l.
Proof.
  intros H. induction l as [|x l IH]; simpl; [reflexivity|].
  rewrite filter_insert by (intros; now apply H).
  simpl. now rewrite IH.
Qed.

Hypothesis before_total : forall x y, before x y = false -> before y x = true.
Hypothesis before_trans :
  forall x y z, before x y = true -> before y z = true -> before x z = true.

Lemma insert_sorted x l :
  StronglySorted (fun a b => before a b = true) l ->
  StronglySorted (fun a b => before a b = true) (insert before x l).
Proof.
  induction 1 as [|y t Hs IH Hy]; simpl.
  - repeat constructor.
  - destruct (before x y) eqn:E.
    + constructor; [now constructor|].
      constructor; [assumption|].
      eapply Forall_impl; [|exact Hy]. intros z Hz. eapply before_trans; eauto.
    + constructor; [assumption|].
      rewrite Forall_forall. intros z Hz.
      apply (Permutation_in _ (Permutation_sym (insert_perm x t))) in Hz.
      destruct Hz as [<-|Hz]; [now apply before_total|].
      rewrite Forall_forall in Hy. now apply Hy.
Qed.

Lemma isort_sorted l :
  StronglySorted (fun a b => before a b = true) (isort before l).
Proof.
  induction l as [|x l IH]; simpl; [constructor|]. now apply insert_sorted.
Qed.
End StableSortFacts.

(** ** The record store *)

Lemma db_state_eta db :
  mk_db (users db) (users_seq db) (expenses db) (expenses_seq db) = db.
Proof. now destruct db. Qed.

Lemma delete_matches_iff expense_id uid r :
  delete_matches expense_id uid r = true <->
  e_id r = expense_id /\ user_id r = uid.
Proof.
  unfold delete_matches. rewrite andb_true_iff, !Z.eqb_eq. tauto.
Qed.

Lemma get_expenses_In db uid fr :
  In fr (get_expenses db uid) <->
  exists r, In r (expenses db) /\ user_id r = uid /\ fr = select_columns r.
Proof.
  unfold get_expenses. rewrite isort_In, in_map_iff. split.
  - intros (r & <- & Hr). apply filter_In in Hr as [Hin Ho].
    exists r. unfold owned_by in Ho. rewrite Z.eqb_eq in Ho. auto.
  - intros (r & Hin & Hu & ->). exists r. split; [reflexivity|].
    apply filter_In. split; [assumption|]. unfold owned_by. now apply Z.eqb_eq.
Qed.

Lemma delete_expense_false_unchanged db uid expense_id :
  snd (delete_expense db uid expense_id) = false ->
  fst (delete_expense db uid expense_id) = db.
Proof.
  unfold delete_expense, len. simpl. intros H.
  apply Z.ltb_ge in H.
  assert (Hnil : filter (delete_matches expense_id uid) (expenses db) = []).
  { destruct (filter _ _); [reflexivity|]. simpl in H. lia. }
  rewrite <- (db_state_eta db) at 5. f_equal.
  apply filter_all_true. intros r Hr.
  now rewrite (filter_nil_none _ _ Hnil r Hr).
Qed.

(** C2: [delete_expense] answers [True] exactly when the table held a row
    with this id and this owner, and then removes such rows and no other;
    when it answers [False] the database is what it was, and a row of that
    id held by anybody is still among its owner's [get_expenses]. *)
Theorem delete_expense_scoped db uid expense_id :
  let db' := fst (delete_expense db uid expense_id) in
  let ret := snd (delete_expense db uid expense_id) in
  (ret = true <->
   exists r, In r (expenses db) /\ e_id r = expense_id /\ user_id r = uid) /\
  (forall r, In r (expenses db') <->
             In r (expenses db) /\ ~ (e_id r = expense_id /\ user_id r = uid)) /\
  (ret = false -> db' = db) /\
  (ret = false ->
   forall r, In r (expenses db) -> e_id r = expense_id ->
             In (select_columns r) (get_expenses db' (user_id r))).
Proof.
  intros db' ret. repeat split.
  - unfold ret, delete_expense, len. simpl. intros H. apply Z.ltb_lt in H.
    destruct (filter _ _) as [|r l] eqn:E; [simpl in H; lia|].
    assert (Hin : In r (filter (delete_matches expense_id uid) (expenses db)))
      by (rewrite E; now left).
    apply filter_In in Hin as [Hin Hm]. apply delete_matches_iff in Hm.
    exists r. tauto.
  - intros (r & Hin & Hid & Hu).
    unfold ret, delete_expense, len. simpl. apply Z.ltb_lt.
    assert (Hf : In r (filter (delete_matches expense_id uid) (expenses db))).
    { apply filter_In. split; [assumption|]. now apply delete_matches_iff. }
    destruct (filter _ _); [destruct Hf|]. simpl. lia.
  - unfold db', delete_expense in H. simpl in H. now apply filter_In in H.
  - unfold db', delete_expense in H. simpl in H. apply filter_In in H as [_ H].
    intros Hm. apply delete_matches_iff in Hm. rewrite Hm in H. discriminate.
  - intros [Hin Hn]. unfold db', delete_expense. simpl. apply filter_In.
    split; [assumption|]. destruct (delete_matches _ _ r) eqn:E; [|reflexivity].
    apply delete_matches_iff in E. contradiction.
  - apply delete_expense_false_unchanged.
  - intros Hret r Hin Hid. unfold db'.
    rewrite (delete_expense_false_unchanged _ _ _ Hret).
    apply get_expenses_In. exists r. auto.
Qed.

Lemma delete_expense_scoped_witness :
  fst (delete_expense sample_db 2 1) = sample_db /\
  In (select_columns lunch_row)
     (get_expenses (fst (delete_expense sample_db 2 1)) 1).
Proof.
  destruct (delete_expense_scoped sample_db 2 1) as (_ & _ & Hsame & Hread).
  split.
  - apply Hsame. reflexivity.
  - apply (Hread eq_refl lunch_row); [left; reflexivity | reflexivity].
Defined.

(** ** Keys *)

Lemma ids_in_range_snoc ids seq :
  ids_in_range ids seq -> ids_in_range (ids ++ [seq + 1]) (seq + 1).
Proof.
  intros (Hseq & Hnd & Hr). split; [lia|]. split.
  - apply NoDup_app; [assumption | repeat constructor; intros [] |].
    intros i Hi [<-|[]]. rewrite Forall_forall in Hr. specialize (Hr _ Hi). lia.
  - apply Forall_app. split.
    + eapply Forall_impl; [|exact Hr]. simpl. intros; lia.
    + constructor; [lia | constructor].
Qed.

Lemma ids_in_range_fresh ids seq :
  ids_in_range ids seq -> ~ In (seq + 1) ids.
Proof.
  intros (_ & _ & Hr) Hin. rewrite Forall_forall in Hr.
  specialize (Hr _ Hin). lia.
Qed.

Lemma NoDup_map_filter {A B : Type} (f : A -> B) (p : A -> bool) l :
  NoDup (map f l) -> NoDup (map f (filter p l)).
Proof.
  induction l as [|x l IH]; simpl; [auto|].
  intros H. inversion H as [|? ? Hx Hl]; subst.
  destruct (p x); simpl; [|auto].
  constructor; [|auto].
  intros Hin. apply Hx. apply in_map_iff in Hin as (y & Hy & Hf).
  apply in_map_iff. exists y. apply filter_In in Hf. tauto.
Qed.

Lemma ids_in_range_filter {A : Type} (f : A -> Z) (p : A -> bool) l seq :
  ids_in_range (map f l) seq -> ids_in_range (map f (filter p l)) seq.
Proof.
  intros (Hseq & Hnd & Hr). split; [assumption|].
  split; [now apply NoDup_map_filter|].
  rewrite Forall_forall in *. intros i Hi. apply Hr.
  apply in_map_iff in Hi as (y & <- & Hy). apply in_map. now apply filter_In in Hy.
Qed.

Lemma wf_init : wf_db init_database.
Proof. repeat split; simpl; try constructor; lia. Qed.

Lemma wf_add_expense db now uid d cat amt desc :
  wf_db db -> wf_db (fst (add_expense db now uid d cat amt desc)).
Proof.
  intros (He & Hu & Hn). unfold wf_db. simpl. split; [|tauto].
  rewrite map_app. simpl. now apply ids_in_range_snoc.
Qed.

Lemma wf_delete_expense db uid expense_id :
  wf_db db -> wf_db (fst (delete_expense db uid expense_id)).
Proof.
  intros (He & Hu & Hn). unfold wf_db. simpl. split; [|tauto].
  now apply ids_in_range_filter.
Qed.

Lemma wf_create_user sha db now uname password mail :
  wf_db db -> wf_db (fst (create_user sha db now uname password mail)).
Proof.
  intros (He & Hu & Hn). unfold create_user.
  destruct (existsb _ _) eqn:E; simpl; [exact (conj He (conj Hu Hn))|].
  unfold wf_db. simpl. rewrite !map_app. simpl. split; [assumption|]. split.
  - now apply ids_in_range_snoc.
  - apply NoDup_app; [assumption | repeat constructor; intros [] |].
    intros n Hin [<-|[]]. apply in_map_iff in Hin as (r & Hr & Hin).
    pose proof (existsb_false_all _ _ E r Hin) as Hf. simpl in Hf.
    apply String.eqb_neq in Hf. contradiction.
Qed.

Lemma reachable_wf sha db : reachable sha db -> wf_db db.
Proof.
  induction 1.
  - apply wf_init.
  - now apply wf_create_user.
  - now apply wf_add_expense.
  - now apply wf_delete_expense.
Qed.

(** ** Adding *)

(** C1, as stated, fails: [add_expense] writes the row of an amount that
    is not positive and answers [True]. *)
Lemma add_expense_nonpositive_written :
  (-5 <= 0)%Q /\
  add_expense init_database 0 1 738890 "Food" (-5) "" =
    (mk_db [] 0 [mk_expense 1 1 738890 "Food" (-5) "" 0] 1, true) /\
  fst (add_expense init_database 0 1 738890 "Food" (-5) "") <> init_database.
Proof.
  split; [discriminate|]. split; [reflexivity|]. discriminate.
Qed.

Lemma Qlt_bool_iff x y : Qlt_bool x y = true <-> (x < y)%Q.
Proof.
  unfold Qlt_bool. rewrite negb_true_iff. split.
  - intros H. apply Qnot_le_lt. intros Hle.
    apply Qle_bool_iff in Hle. congruence.
  - intros H. destruct (Qle_bool y x) eqn:E; [|reflexivity].
    apply Qle_bool_iff in E. exfalso. now apply (Qlt_not_le x y).
Qed.

(** C1, amended: for every amount [add_expense] appends exactly one row,
    holding the arguments under the next [AUTOINCREMENT] id, which no row
    of the table has, and answers [True]; the test of the amount is the
    form's: for an amount that is not positive the page reports
    "Amount must be greater than 0" and leaves the database as it is, for
    a positive one it is [add_expense] that runs. *)
Theorem add_expense_inserts_page_guards db now uid d cat amt desc :
  let db' := fst (add_expense db now uid d cat amt desc) in
  snd (add_expense db now uid d cat amt desc) = true /\
  expenses db' =
    expenses db ++ [mk_expense (expenses_seq db + 1) uid d cat amt desc now] /\
  users db' = users db /\
  (wf_db db -> ~ In (expenses_seq db + 1) (map e_id (expenses db))) /\
  ((amt <= 0)%Q ->
   add_expense_page db now uid d cat amt desc =
     (db, Error "Amount must be greater than 0")) /\
  ((0 < amt)%Q ->
   add_expense_page db now uid d cat amt desc = (db', Added amt cat)).
Proof.
  intros db'. repeat split.
  - intros (He & _). now apply ids_in_range_fresh.
  - intros Hle. unfold add_expense_page.
    destruct (Qlt_bool 0 amt) eqn:E; [|reflexivity].
    apply Qlt_bool_iff in E. exfalso. now apply (Qlt_not_le 0 amt).
  - intros Hlt. unfold add_expense_page.
    apply Qlt_bool_iff in Hlt. now rewrite Hlt.
Qed.

Lemma add_expense_inserts_page_guards_witness :
  ~ In 4 (map e_id (expenses sample_db)) /\
  add_expense_page sample_db 0 1 738920 "Food" 0 "" =
    (sample_db, Error "Amount must be greater than 0") /\
  add_expense_page sample_db 0 1 738920 "Food" (1 # 100) "" =
    (fst (add_expense sample_db 0 1 738920 "Food" (1 # 100) ""),
     Added (1 # 100) "Food").
Proof.
  split; [|split].
  - apply (add_expense_inserts_page_guards sample_db 0 1 738920 "Food" 0 "").
    apply (reachable_wf toy_digest). repeat constructor.
  - apply (add_expense_inserts_page_guards sample_db 0 1 738920 "Food" 0 "").
    discriminate.
  - apply (add_expense_inserts_page_guards sample_db 0 1 738920 "Food" (1 # 100) "").
    reflexivity.
Defined.

(** ** Isolation of users *)

Lemma filter_owned_after_delete u v expense_id l :
  v <> u ->
  filter (owned_by u)
         (filter (fun r => negb (delete_matches expense_id v r)) l) =
  filter (owned_by u) l.
Proof.
  intros Hne. induction l as [|r l IH]; simpl; [reflexivity|].
  destruct (delete_matches expense_id v r) eqn:Em; simpl.
  - apply delete_matches_iff in Em as [_ Hv].
    unfold owned_by at 2. destruct (user_id r =? u) eqn:Eu; [|assumption].
    apply Z.eqb_eq in Eu. congruence.
  - now rewrite IH.
Qed.

Lemma get_expenses_owned db db2 u :
  filter (owned_by u) (expenses db2) = filter (owned_by u) (expenses db) ->
  get_expenses db2 u = get_expenses db u.
Proof. unfold get_expenses. now intros ->. Qed.

(** C10: every row [get_expenses] gives user [u] is a row of the table
    held by [u]; no id of a row held by somebody else occurs in it; the
    result, and with it the filtered frame and the category summary, is
    determined by the rows [u] holds, whatever else the table contains;
    a deletion asked by another user removes no row of [u], and neither
    it nor an insertion by another user changes what [u] reads. *)
Theorem get_expenses_isolated db u :
  (forall fr, In fr (get_expenses db u) ->
     exists r, In r (expenses db) /\ user_id r = u /\ fr = select_columns r) /\
  (wf_db db ->
   forall r, In r (expenses db) -> user_id r <> u ->
     ~ In (e_id r) (map id (get_expenses db u))) /\
  (forall db2,
     filter (owned_by u) (expenses db2) = filter (owned_by u) (expenses db) ->
     get_expenses db2 u = get_expenses db u /\
     (forall now c n,
        get_filtered_expenses db2 u now c n = get_filtered_expenses db u now c n) /\
     (forall out, get_category_summary db2 u out <-> get_category_summary db u out)) /\
  (forall v expense_id, v <> u ->
     get_expenses (fst (delete_expense db v expense_id)) u = get_expenses db u) /\
  (forall v expense_id r, v <> u -> In r (expenses db) -> user_id r = u ->
     In r (expenses (fst (delete_expense db v expense_id)))) /\
  (forall v now d cat amt desc, v <> u ->
     get_expenses (fst (add_expense db now v d cat amt desc)) u = get_expenses db u).
Proof.
  split; [|split; [|split; [|split; [|split]]]].
  - intros fr. apply get_expenses_In.
  - intros ((_ & Hnd & _) & _) r Hin Hu Hid.
    apply in_map_iff in Hid as (fr & Hfr & Hin').
    apply get_expenses_In in Hin' as (r' & Hr' & Hu' & ->). simpl in Hfr.
    assert (r' = r); [|congruence].
    clear - Hnd Hin Hr' Hfr. induction (expenses db) as [|x l IH]; [destruct Hin|].
    simpl in Hnd. inversion Hnd as [|? ? Hx Hl]; subst.
    destruct Hin as [->|Hin], Hr' as [->|Hr']; auto.
    + exfalso. apply Hx. rewrite <- Hfr. now apply in_map.
    + exfalso. apply Hx. rewrite Hfr. now apply in_map.
  - intros db2 H. pose proof (get_expenses_owned db db2 u H) as E.
    unfold get_filtered_expenses, get_category_summary. rewrite E.
    split; [reflexivity|]. split; [reflexivity|]. intros out. reflexivity.
  - intros v expense_id Hne. apply get_expenses_owned.
    simpl. now apply filter_owned_after_delete.
  - intros v expense_id r Hne Hin Hu. simpl. apply filter_In.
    split; [assumption|].
    destruct (delete_matches expense_id v r) eqn:E; [|reflexivity].
    apply delete_matches_iff in E. destruct E. congruence.
  - intros v now d cat amt desc Hne. apply get_expenses_owned.
    simpl. rewrite filter_app. simpl. unfold owned_by at 2. simpl.
    destruct (v =? u) eqn:E; [apply Z.eqb_eq in E; contradiction|].
    apply app_nil_r.
Qed.

Lemma get_expenses_isolated_witness :
  ~ In 4 (map id (get_expenses shared_db 1)) /\
  get_expenses (fst (delete_expense shared_db 2 4)) 1 = get_expenses shared_db 1.
Proof.
  split.
  - assert (Hwf : wf_db shared_db)
      by (apply (reachable_wf toy_digest); repeat constructor).
    apply (proj1 (proj2 (get_expenses_isolated shared_db 1)) Hwf rent_row).
    + simpl. tauto.
    + discriminate.
  - apply (get_expenses_isolated shared_db 1). discriminate.
Defined.

(** ** The user store *)

Section UserStore.
Variable sha : string -> string.

Lemma username_taken_iff db uname :
  existsb (fun r => (username r =? uname)%string) (users db) = true <->
  exists r, In r (users db) /\ username r = uname.
Proof.
  rewrite existsb_exists. split; intros (r & Hin & H); exists r;
    (split; [assumption|]); now apply String.eqb_eq.
Qed.

Lemma credentials_match_iff uname digest r :
  credentials_match uname digest r = true <->
  username r = uname /\ password_hash r = digest.
Proof.
  unfold credentials_match. now rewrite andb_true_iff, !String.eqb_eq.
Qed.

Lemma create_user_duplicate db now uname password mail :
  (exists r, In r (users db) /\ username r = uname) ->
  create_user sha db now uname password mail =
    (db, (false, "Username already exists!")).
Proof.
  intros H. apply username_taken_iff in H. unfold create_user. now rewrite H.
Qed.

Lemma find_all_false {A : Type} (p : A -> bool) l :
  (forall x, In x l -> p x = false) -> find p l = None.
Proof.
  induction l as [|x l IH]; intros H; simpl; [reflexivity|].
  rewrite (H x (or_introl eq_refl)). apply IH. intros y Hy. apply H. now right.
Qed.

Lemma find_app_none {A : Type} (p : A -> bool) l1 l2 :
  find p l1 = None -> find p (l1 ++ l2) = find p l2.
Proof.
  induction l1 as [|x l1 IH]; simpl; [reflexivity|].
  destruct (p x); [discriminate|assumption].
Qed.

Lemma authenticate_new_user db now uname password mail :
  snd (create_user sha db now uname password mail) =
    (true, "User created successfully!") ->
  authenticate_user sha (fst (create_user sha db now uname password mail))
                    uname password = Some (users_seq db + 1, uname).
Proof.
  unfold create_user. destruct (existsb _ _) eqn:E; [discriminate|].
  intros _. unfold authenticate_user. simpl.
  rewrite find_app_none.
  - simpl. unfold credentials_match, hash_password. simpl.
    now rewrite !String.eqb_refl.
  - apply find_all_false. intros r Hr.
    pose proof (existsb_false_all _ _ E r Hr) as Hf. simpl in Hf.
    unfold credentials_match. now rewrite Hf.
Qed.

(** C8: the row [create_user] writes holds the digest of the password,
    and the result depends on the password through its digest only; when
    the name is taken it answers [False] with "Username already exists!"
    and the database is what it was, so that every login answers as
    before; after a creation that succeeded, a second one under the name
    fails and the first password still authenticates the account. *)
Theorem create_user_digest_duplicate db now uname password mail :
  let db1 := fst (create_user sha db now uname password mail) in
  let ok := fst (snd (create_user sha db now uname password mail)) in
  (ok = true ->
   users db1 =
     users db ++ [mk_user (users_seq db + 1) uname (sha password) mail now]) /\
  (forall password',
     sha password' = sha password ->
     create_user sha db now uname password' mail =
     create_user sha db now uname password mail) /\
  ((exists r, In r (users db) /\ username r = uname) ->
   create_user sha db now uname password mail =
     (db, (false, "Username already exists!")) /\
   forall u p, authenticate_user sha db1 u p = authenticate_user sha db u p) /\
  (ok = true ->
   forall now2 password2 mail2,
     create_user sha db1 now2 uname password2 mail2 =
       (db1, (false, "Username already exists!")) /\
     authenticate_user sha
       (fst (create_user sha db1 now2 uname password2 mail2)) uname password =
       Some (users_seq db + 1, uname)).
Proof.
  intros db1 ok. split; [|split; [|split]].
  - unfold ok, db1, create_user. destruct (existsb _ _); [discriminate|].
    reflexivity.
  - intros password' H. unfold create_user, hash_password. now rewrite H.
  - intros H. unfold db1. rewrite (create_user_duplicate _ _ _ _ _ H).
    split; reflexivity.
  - intros Hok now2 password2 mail2.
    assert (Hsnd : snd (create_user sha db now uname password mail) =
                   (true, "User created successfully!")).
    { unfold ok, create_user in *. destruct (existsb _ _); [discriminate|].
      reflexivity. }
    assert (Hdup : create_user sha db1 now2 uname password2 mail2 =
                   (db1, (false, "Username already exists!"))).
    { apply create_user_duplicate.
      exists (mk_user (users_seq db + 1) uname (sha password) mail now).
      split; [|reflexivity].
      unfold db1, create_user in *. destruct (existsb _ _); [discriminate|].
      simpl. apply in_or_app. right. now left. }
    rewrite Hdup. split; [reflexivity|]. simpl.
    now apply authenticate_new_user.
Qed.

(** C9: [authenticate_user] answers with a row [(id, username)] exactly
    when the table holds a user of that name whose stored hash is the
    digest of the password, and the row is such a user's; it answers
    [None] otherwise, for a name nobody has as for a wrong password. *)
Theorem authenticate_user_exact db uname password :
  (forall i n,
     authenticate_user sha db uname password = Some (i, n) ->
     n = uname /\
     exists r, In r (users db) /\ u_id r = i /\ username r = uname /\
               password_hash r = sha password) /\
  ((exists r, In r (users db) /\ username r = uname /\
              password_hash r = sha password) ->
   exists i, authenticate_user sha db uname password = Some (i, uname)) /\
  ((forall r, In r (users db) -> username r <> uname) ->
   authenticate_user sha db uname password = None) /\
  ((forall r, In r (users db) -> username r = uname ->
              password_hash r <> sha password) ->
   authenticate_user sha db uname password = None).
Proof.
  unfold authenticate_user, hash_password. split; [|split; [|split]].
  - intros i n H. destruct (find _ _) as [r|] eqn:E; [|discriminate].
    injection H as <- <-. apply find_some in E as [Hin Hm].
    apply credentials_match_iff in Hm as [Hn Hh].
    split; [assumption|]. exists r. auto.
  - intros (r & Hin & Hn & Hh).
    destruct (find _ _) as [r'|] eqn:E.
    + apply find_some in E as [_ Hm].
      apply credentials_match_iff in Hm as [-> _]. eauto.
    + exfalso. pose proof (find_none _ _ E r Hin) as Hf.
      assert (credentials_match uname (sha password) r = true)
        by now apply credentials_match_iff.
      congruence.
  - intros H. destruct (find _ _) as [r|] eqn:E; [|reflexivity].
    apply find_some in E as [Hin Hm].
    apply credentials_match_iff in Hm as [Hn _]. now apply H in Hin.
  - intros H. destruct (find _ _) as [r|] eqn:E; [|reflexivity].
    apply find_some in E as [Hin Hm].
    apply credentials_match_iff in Hm as [Hn Hh]. now apply H in Hh.
Qed.
End UserStore.

Lemma create_user_digest_duplicate_witness :
  create_user toy_digest sample_users 5 "alice" "hatter" "a@b" =
    (sample_users, (false, "Username already exists!")) /\
  create_user toy_digest alice_only 5 "alice" "hatter" "a@b" =
    (alice_only, (false, "Username already exists!")) /\
  authenticate_user toy_digest
    (fst (create_user toy_digest alice_only 5 "alice" "hatter" "a@b"))
    "alice" "wonderland" = Some (1, "alice").
Proof.
  split.
  - destruct (create_user_digest_duplicate toy_digest sample_users 5
                "alice" "hatter" "a@b") as (_ & _ & Hdup & _).
    apply Hdup.
    exists (mk_user 1 "alice" (toy_digest "wonderland") "" 0).
    split; [left; reflexivity | reflexivity].
  - exact (proj2 (proj2 (proj2
      (create_user_digest_duplicate toy_digest init_database 0
         "alice" "wonderland" ""))) eq_refl 5 "hatter" "a@b").
Defined.

Lemma authenticate_user_exact_witness :
  (exists i, authenticate_user toy_digest sample_users "alice" "wonderland" =
             Some (i, "alice")) /\
  authenticate_user toy_digest sample_users "carol" "wonderland" = None /\
  authenticate_user toy_digest sample_users "alice" "builder" = None.
Proof.
  split; [|split].
  - apply (authenticate_user_exact toy_digest sample_users "alice" "wonderland").
    exists (mk_user 1 "alice" (toy_digest "wonderland") "" 0).
    repeat split. now left.
  - apply (authenticate_user_exact toy_digest sample_users "carol" "wonderland").
    intros r [<-|[<-|[]]]; discriminate.
  - apply (authenticate_user_exact toy_digest sample_users "alice" "builder").
    intros r [<-|[<-|[]]]; simpl; intros; discriminate.
Defined.

(** ** Filtering *)

Lemma filter_subseq {A : Type} (p : A -> bool) l : subseq (filter p l) l.
Proof.
  induction l as [|x l IH]; simpl; [constructor|].
  destruct (p x); now constructor.
Qed.

Lemma filter_andb {A : Type} (p q : A -> bool) l :
  filter q (filter p l) = filter (fun x => p x && q x) l.
Proof.
  induction l as [|x l IH]; simpl; [reflexivity|].
  destruct (p x); simpl; [destruct (q x)|]; now rewrite IH.
Qed.

Lemma filter_true {A : Type} (l : list A) : filter (fun _ => true) l = l.
Proof. now apply filter_all_true. Qed.

Lemma filter_StronglySorted {A : Type} (R : A -> A -> Prop) (p : A -> bool) l :
  StronglySorted R l -> StronglySorted R (filter p l).
Proof.
  induction 1 as [|x l Hs IH Hx]; simpl; [constructor|].
  destruct (p x); [|assumption]. constructor; [assumption|].
  rewrite Forall_forall in *. intros y Hy. apply Hx. now apply filter_In in Hy.
Qed.

Lemma StronglySorted_weaken {A : Type} (R S : A -> A -> Prop) l :
  (forall a b, R a b -> S a b) -> StronglySorted R l -> StronglySorted S l.
Proof.
  intros HRS. induction 1 as [|x l Hs IH Hx]; constructor; [assumption|].
  eapply Forall_impl; [|exact Hx]. intros y. apply HRS.
Qed.

Lemma filter_frame_as_filter df now filter_category days :
  filter_frame df now filter_category days =
  filter (fun r => keeps_category filter_category r && keeps_recent now days r) df.
Proof.
  unfold filter_frame. destruct df as [|r0 df]; [reflexivity|].
  change (empty (r0 :: df)) with false. change (negb false) with true.
  cbv beta iota zeta.
  generalize (r0 :: df). intros l.
  assert (Hc : match filter_category with
               | Some c =>
                   if truthy_str filter_category && negb (c =? "All")%string
                   then filter (fun r => (category r =? c)%string) l
                   else l
               | None => l
               end = filter (keeps_category filter_category) l).
  { unfold keeps_category.
    destruct filter_category as [c|]; simpl; [|now rewrite filter_true].
    destruct (c =? "")%string; simpl; [now rewrite filter_true|].
    destruct (c =? "All")%string; simpl; [now rewrite filter_true|reflexivity]. }
  rewrite Hc.
  destruct days as [n|]; simpl.
  - destruct (n =? 0); simpl.
    + rewrite <- (filter_andb (keeps_category filter_category) (fun _ => true)).
      now rewrite filter_true.
    + now rewrite filter_andb.
  - rewrite <- (filter_andb (keeps_category filter_category) (fun _ => true)).
    now rewrite filter_true.
Qed.

Lemma date_desc_total a b : date_desc a b = false -> date_desc b a = true.
Proof. unfold date_desc. rewrite Z.leb_gt, Z.leb_le. lia. Qed.

Lemma date_desc_trans a b c :
  date_desc a b = true -> date_desc b c = true -> date_desc a c = true.
Proof. unfold date_desc. rewrite !Z.leb_le. lia. Qed.

Lemma get_expenses_sorted db uid :
  StronglySorted (fun a b => date b <= date a) (get_expenses db uid).
Proof.
  unfold get_expenses.
  eapply StronglySorted_weaken;
    [|apply (isort_sorted date_desc date_desc_total date_desc_trans)].
  intros a b H. now apply Z.leb_le.
Qed.

(** C5, as stated, fails: with [days = 0] given, the specification keeps
    the rows dated [now] or later, and [get_filtered_expenses] returns
    every row; the same holds for the empty string given as category. *)
Lemma filter_zero_days_not_applied :
  let df := get_expenses sample_db 1 in
  let now := to_datetime 738920 in
  filter_frame df now None (Some 0) = df /\
  filter_spec df now None (Some 0) = [] /\
  filter_frame df now (Some "") None = df /\
  filter_spec df now (Some "") None = [] /\
  get_filtered_expenses sample_db 1 now None (Some 0) <>
  filter_spec (get_expenses sample_db 1) now None (Some 0).
Proof. repeat split. discriminate. Qed.

(** C5, amended: the category filter is applied when a category is given
    that is neither the empty string nor "All", the recency filter when a
    number of days other than 0 is given; a row is kept when it passes
    both; with neither argument the frame is returned as it is; the rows
    kept stand in the order of the frame, which for the frame read from
    the table is the descending order of dates. *)
Theorem filter_frame_conjunction df now filter_category days db uid :
  filter_frame df now filter_category days =
    filter (fun r => keeps_category filter_category r && keeps_recent now days r)
           df /\
  (forall r,
     In r (filter_frame df now filter_category days) <->
     In r df /\
     (forall c, filter_category = Some c -> c <> "" -> c <> "All" ->
                category r = c) /\
     (forall n, days = Some n -> n <> 0 ->
                now - timedelta n <= to_datetime (date r))) /\
  filter_frame df now None None = df /\
  subseq (filter_frame df now filter_category days) df /\
  get_filtered_expenses db uid now filter_category days =
    filter_frame (get_expenses db uid) now filter_category days /\
  StronglySorted (fun a b => date b <= date a)
    (get_filtered_expenses db uid now filter_category days).
Proof.
  split; [apply filter_frame_as_filter|].
  split; [|split; [|split; [|split]]].
  - intros r. rewrite filter_frame_as_filter, filter_In, andb_true_iff.
    unfold keeps_category, keeps_recent. split.
    + intros (Hin & Hc & Hd). split; [assumption|]. split.
      * intros c -> Hne Hall.
        apply String.eqb_neq in Hne, Hall. rewrite Hne, Hall in Hc.
        now apply String.eqb_eq.
      * intros n -> Hn. apply Z.eqb_neq in Hn. rewrite Hn in Hd.
        now apply Z.leb_le.
    + intros (Hin & Hc & Hd). split; [assumption|]. split.
      * destruct filter_category as [c|]; [|reflexivity].
        destruct (c =? "")%string eqn:E1; [reflexivity|].
        destruct (c =? "All")%string eqn:E2; [reflexivity|]. simpl.
        apply String.eqb_eq. apply Hc; [reflexivity| |]; now apply String.eqb_neq.
      * destruct days as [n|]; [|reflexivity].
        destruct (n =? 0) eqn:E; [reflexivity|]. simpl.
        apply Z.leb_le. apply Hd; [reflexivity|]. now apply Z.eqb_neq.
  - rewrite filter_frame_as_filter. apply filter_true.
  - rewrite filter_frame_as_filter. apply filter_subseq.
  - reflexivity.
  - unfold get_filtered_expenses. rewrite filter_frame_as_filter.
    apply filter_StronglySorted, get_expenses_sorted.
Qed.

Lemma filter_frame_conjunction_witness :
  In (select_columns lunch_row)
     (filter_frame (get_expenses sample_db 1) (to_datetime 738920)
                   (Some "Food") (Some 90)).
Proof.
  apply (proj1 (proj2 (filter_frame_conjunction (get_expenses sample_db 1)
                         (to_datetime 738920) (Some "Food") (Some 90)
                         sample_db 1))).
  split; [simpl; tauto|]. split.
  - intros c [= <-] _ _. reflexivity.
  - intros n [= <-] _. vm_compute. discriminate.
Defined.

(** ** Overall figures *)

Lemma len_pos_cons {A : Type} (x : A) l : (0 <? len (x :: l)) = true.
Proof. unfold len. simpl length. apply Z.ltb_lt. lia. Qed.

Lemma truediv_nonzero x n : n <> 0 -> truediv x n = Ok (x / inject_Z n)%Q.
Proof. intros H. unfold truediv. apply Z.eqb_neq in H. now rewrite H. Qed.

Lemma monthly_report_stats_guarded r df :
  monthly_report_stats (r :: df) = dashboard_stats (r :: df).
Proof.
  unfold monthly_report_stats, dashboard_stats. now rewrite len_pos_cons.
Qed.

(** C4: the figures are the sum of the amounts, the number of rows and
    their quotient, with 0 for the average of no rows; computing them never
    raises, on the dashboard, whose division is guarded by the count, and
    on the monthly report, whose division is reached for a frame with rows
    only and then gives the same figures. *)
Theorem overall_stats_never_raise df :
  dashboard_stats df =
    Ok (mk_stats (Qsum (map amount df)) (len df)
          (if 0 <? len df
           then (Qsum (map amount df) / inject_Z (len df))%Q
           else 0%Q)) /\
  dashboard_stats [] = Ok (mk_stats 0 0 0) /\
  monthly_report_page df =
    (if empty df then Ok (Notice "No expenses found")
     else s <- dashboard_stats df ;; Ok (Figures s)) /\
  (exists v, dashboard_page df = Ok v) /\
  (exists v, monthly_report_page df = Ok v).
Proof.
  assert (Hd : dashboard_stats df =
    Ok (mk_stats (Qsum (map amount df)) (len df)
          (if 0 <? len df
           then (Qsum (map amount df) / inject_Z (len df))%Q
           else 0%Q))).
  { unfold dashboard_stats. destruct (0 <? len df) eqn:E; [|reflexivity].
    apply Z.ltb_lt in E. rewrite truediv_nonzero by lia. reflexivity. }
  assert (Hm : monthly_report_page df =
    (if empty df then Ok (Notice "No expenses found")
     else s <- dashboard_stats df ;; Ok (Figures s))).
  { unfold monthly_report_page. destruct df as [|r df]; [reflexivity|].
    now rewrite monthly_report_stats_guarded. }
  split; [exact Hd|]. split; [reflexivity|]. split; [exact Hm|]. split.
  - unfold dashboard_page. destruct (empty df); [eauto|].
    rewrite Hd. simpl. eauto.
  - rewrite Hm. destruct (empty df); [eauto|]. rewrite Hd. simpl. eauto.
Qed.

(** ** Sums *)

Lemma Qsum_snoc l v : Qsum (l ++ [v]) = (Qsum l + v)%Q.
Proof. unfold Qsum. now rewrite fold_left_app. Qed.

Lemma fold_Qplus_shift l a : (fold_left Qplus l a == a + Qsum l)%Q.
Proof.
  unfold Qsum. revert a. induction l as [|x l IH]; intros a; simpl.
  - ring.
  - rewrite (IH (a + x)%Q), (IH (0 + x)%Q). ring.
Qed.

Lemma Qsum_cons x l : (Qsum (x :: l) == x + Qsum l)%Q.
Proof.
  unfold Qsum at 1. simpl. rewrite fold_Qplus_shift. ring.
Qed.

Lemma len_snoc {A : Type} (l : list A) x : len (l ++ [x]) = len l + 1.
Proof. unfold len. rewrite length_app. simpl. lia. Qed.

(** ** Grouping *)

Section GroupByFacts.
Context {K : Type}.
Variable cmp : K -> K -> comparison.
Hypothesis cmp_eq : forall a b, cmp a b = Eq <-> a = b.
Hypothesis cmp_antisym : forall a b, cmp a b = CompOpp (cmp b a).
Hypothesis cmp_trans : forall a b c, cmp a b = Lt -> cmp b c = Lt -> cmp a c = Lt.

Local Abbreviation ltk := (fun a b : K => cmp a b = Lt).
Local Abbreviation total_of := (fun e : K * (Q * Z) => fst (snd e)).

Lemma cmp_refl a : cmp a a = Eq.
Proof. now apply cmp_eq. Qed.

Lemma ltk_neq a b : cmp a b = Lt -> a <> b.
Proof. intros H ->. rewrite cmp_refl in H. discriminate. Qed.

Lemma same_key_true k k' : same_key cmp k k' = true <-> k = k'.
Proof.
  unfold same_key. rewrite <- cmp_eq.
  destruct (cmp k k'); split; intros; congruence.
Qed.

Lemma same_key_refl k : same_key cmp k k = true.
Proof. now apply same_key_true. Qed.

Lemma same_key_neq k k' : k <> k' -> same_key cmp k k' = false.
Proof.
  intros H. destruct (same_key cmp k k') eqn:E; [|reflexivity].
  apply same_key_true in E. contradiction.
Qed.

Lemma upsert_keys k v acc k' :
  In k' (map fst (upsert cmp k v acc)) <-> k' = k \/ In k' (map fst acc).
Proof.
  induction acc as [|[k2 [s c]] t IH]; simpl.
  - intuition congruence.
  - destruct (cmp k k2) eqn:E; simpl.
    + apply cmp_eq in E. subst k2. intuition congruence.
    + intuition congruence.
    + rewrite IH. intuition congruence.
Qed.

Lemma upsert_sorted k v acc :
  StronglySorted ltk (map fst acc) ->
  StronglySorted ltk (map fst (upsert cmp k v acc)).
Proof.
  induction acc as [|[k2 [s c]] t IH]; simpl; intros Hs.
  - repeat constructor.
  - inversion Hs as [|? ? Ht Hk2]; subst.
    destruct (cmp k k2) eqn:E; simpl.
    + constructor; assumption.
    + constructor; [assumption|]. constructor; [exact E|].
      eapply Forall_impl; [|exact Hk2]. intros z Hz.
      simpl in *. eapply cmp_trans; eauto.
    + constructor; [now apply IH|].
      rewrite Forall_forall in *. intros z Hz.
      apply upsert_keys in Hz as [->|Hz]; [|now apply Hk2].
      rewrite cmp_antisym, E. reflexivity.
Qed.

Lemma sorted_head_not_in k l :
  StronglySorted ltk (k :: l) -> ~ In k l.
Proof.
  intros Hs Hin. inversion Hs as [|? ? _ Hk]; subst.
  rewrite Forall_forall in Hk. now apply (ltk_neq k k (Hk k Hin)).
Qed.

Lemma upsert_In k v acc k' s' c' :
  StronglySorted ltk (map fst acc) ->
  In (k', (s', c')) (upsert cmp k v acc) ->
  (k' <> k /\ In (k', (s', c')) acc) \/
  (k' = k /\
   ((exists s c, In (k, (s, c)) acc /\ s' = (s + v)%Q /\ c' = c + 1) \/
    (~ In k (map fst acc) /\ s' = v /\ c' = 1))).
Proof.
  induction acc as [|[k2 [s c]] t IH]; simpl; intros Hs Hin.
  - destruct Hin as [[= <- <- <-]|[]]. right. split; [reflexivity|]. right. tauto.
  - pose proof (sorted_head_not_in _ _ Hs) as Hk2.
    inversion Hs as [|? ? Ht Hall]; subst. rewrite Forall_forall in Hall.
    destruct (cmp k k2) eqn:E.
    + apply cmp_eq in E. subst k2.
      destruct Hin as [[= <- <- <-]|Hin].
      * right. split; [reflexivity|]. left. exists s, c. auto.
      * left. split; [|now right]. intros ->. apply Hk2.
        change k with (fst (k, (s', c'))). now apply in_map.
    + destruct Hin as [[= <- <- <-]|Hin].
      * right. split; [reflexivity|]. right. split; [|tauto].
        intros [<-|Hin]; [rewrite cmp_refl in E; discriminate|].
        apply (ltk_neq k k); [|reflexivity].
        eapply cmp_trans; [exact E|]. now apply Hall.
      * left. split; [|assumption]. intros ->.
        destruct Hin as [[= <- <- <-]|Hin];
          [rewrite cmp_refl in E; discriminate|].
        apply (ltk_neq k k); [|reflexivity].
        eapply cmp_trans; [exact E|]. apply Hall.
        change k with (fst (k, (s', c'))). now apply in_map.
    + assert (Hne : k2 <> k).
      { intros ->. rewrite cmp_refl in E. discriminate. }
      destruct Hin as [[= <- <- <-]|Hin]; [left; auto|].
      destruct (IH Ht Hin) as [[Hn Hi]|[-> [(s0 & c0 & Hi & Hs' & Hc')|(Hn & Hs' & Hc')]]].
      * left. auto.
      * right. split; [reflexivity|]. left. exists s0, c0. auto.
      * right. split; [reflexivity|]. right. split; [|tauto].
        intros [H|H]; [contradiction|]. now apply Hn.
Qed.

Lemma upsert_totals k v acc :
  (Qsum (map total_of (upsert cmp k v acc)) == Qsum (map total_of acc) + v)%Q.
Proof.
  induction acc as [|[k2 [s c]] t IH]; cbn [upsert].
  - cbn [map fst snd]. rewrite Qsum_cons. ring.
  - destruct (cmp k k2); cbn [map fst snd]; rewrite !Qsum_cons.
    + ring.
    + ring.
    + rewrite IH. ring.
Qed.

Lemma groupby_agg_snoc rows k v :
  groupby_agg cmp (rows ++ [(k, v)]) = upsert cmp k v (groupby_agg cmp rows).
Proof. unfold groupby_agg. now rewrite fold_left_app. Qed.

Lemma group_rows_snoc k' rows k v :
  group_rows cmp k' (rows ++ [(k, v)]) =
  group_rows cmp k' rows ++ (if same_key cmp k' k then [(k, v)] else []).
Proof. unfold group_rows. now rewrite filter_app. Qed.

Lemma group_rows_absent k rows :
  ~ In k (map fst rows) -> group_rows cmp k rows = [].
Proof.
  intros H. apply filter_all_false. intros [k2 v] Hin. simpl.
  apply same_key_neq. intros ->. apply H.
  change k2 with (fst (k2, v)). now apply in_map.
Qed.

(** The groups are the keys of the rows, each once and in ascending
    order, with the sum and the number of the rows of the key; the sums
    add up to the sum of all rows. *)
Lemma groupby_agg_spec rows :
  StronglySorted ltk (map fst (groupby_agg cmp rows)) /\
  (forall k, In k (map fst (groupby_agg cmp rows)) <-> In k (map fst rows)) /\
  (forall k s c,
     In (k, (s, c)) (groupby_agg cmp rows) ->
     (s == Qsum (map snd (group_rows cmp k rows)))%Q /\
     c = len (group_rows cmp k rows)) /\
  (Qsum (map total_of (groupby_agg cmp rows)) == Qsum (map snd rows))%Q.
Proof.
  induction rows as [|[k v] rows (Hs & Hk & Hg & Ht)] using rev_ind.
  - split; [constructor|]. split; [intros k; reflexivity|].
    split; [intros k s c []|reflexivity].
  - rewrite groupby_agg_snoc.
    split; [now apply upsert_sorted|]. split; [|split].
    + intros k'. rewrite upsert_keys, Hk, map_app, in_app_iff. simpl.
      intuition congruence.
    + intros k' s' c' Hin. rewrite group_rows_snoc.
      destruct (upsert_In _ _ _ _ _ _ Hs Hin)
        as [[Hn Hi]|[-> [(s0 & c0 & Hi & -> & ->)|(Hn & -> & ->)]]].
      * rewrite (same_key_neq _ _ Hn), app_nil_r. now apply Hg.
      * rewrite same_key_refl, map_app. cbn [map snd].
        rewrite Qsum_snoc, len_snoc.
        destruct (Hg _ _ _ Hi) as [E1 E2]. rewrite E1, E2. split; reflexivity.
      * rewrite same_key_refl, group_rows_absent by (now rewrite <- Hk).
        simpl. split; [|reflexivity]. unfold Qsum. simpl. ring.
    + rewrite upsert_totals, Ht, map_app. cbn [map snd].
      rewrite Qsum_snoc. reflexivity.
Qed.
End GroupByFacts.

(** ** Sorted lists and their ends *)

Lemma StronglySorted_app_inv {A : Type} (R : A -> A -> Prop) l1 l2 :
  StronglySorted R (l1 ++ l2) ->
  StronglySorted R l1 /\ StronglySorted R l2 /\
  forall x y, In x l1 -> In y l2 -> R x y.
Proof.
  induction l1 as [|a l1 IH]; simpl; intros H.
  - split; [constructor|]. split; [assumption|]. intros x y [].
  - inversion H as [|? ? Hs Ha]; subst.
    destruct (IH Hs) as (H1 & H2 & H12).
    rewrite Forall_forall in Ha.
    split; [|split; [assumption|]].
    + constructor; [assumption|]. rewrite Forall_forall.
      intros y Hy. apply Ha. apply in_or_app. now left.
    + intros x y [<-|Hx] Hy; [|now apply H12].
      apply Ha. apply in_or_app. now right.
Qed.

Lemma StronglySorted_map_inv {A B : Type} (f : A -> B) (R : B -> B -> Prop) l :
  StronglySorted R (map f l) -> StronglySorted (fun a b => R (f a) (f b)) l.
Proof.
  induction l as [|x l IH]; simpl; intros H; [constructor|].
  inversion H as [|? ? Hs Hx]; subst. constructor; [now apply IH|].
  rewrite Forall_forall in *. intros y Hy. apply Hx. now apply in_map.
Qed.

Lemma filter_map_comm {A B : Type} (f : A -> B) (p : B -> bool) l :
  filter p (map f l) = map f (filter (fun x => p (f x)) l).
Proof.
  induction l as [|x l IH]; simpl; [reflexivity|].
  destruct (p (f x)); simpl; now rewrite IH.
Qed.

Lemma tail_split {A : Type} (n : nat) (l : list A) :
  l = firstn (length l - n) l ++ tail n l.
Proof. unfold tail. symmetry. apply firstn_skipn. Qed.

Lemma tail_length {A : Type} (n : nat) (l : list A) :
  length (tail n l) = Nat.min n (length l).
Proof. unfold tail. rewrite length_skipn. lia. Qed.

(** ** The daily series *)

Lemma Z_compare_trans a b c :
  (a ?= b) = Lt -> (b ?= c) = Lt -> (a ?= c) = Lt.
Proof. rewrite !Z.compare_lt_iff. lia. Qed.

Lemma group_rows_dated d df :
  map snd (group_rows Z.compare d (dated df)) =
  map amount (filter (fun r => date r =? d) df).
Proof.
  unfold group_rows, dated. rewrite filter_map_comm, map_map. simpl.
  f_equal. apply filter_ext. intros r. unfold same_key.
  rewrite Z.eqb_sym, Z.eqb_compare. reflexivity.
Qed.

Lemma groupby_sum_dates df :
  StronglySorted (fun a b => fst a < fst b) (groupby_sum Z.compare (dated df)) /\
  (forall d, In d (map fst (groupby_sum Z.compare (dated df))) <->
             In d (map date df)) /\
  (forall d t, In (d, t) (groupby_sum Z.compare (dated df)) ->
     (t == Qsum (map amount (filter (fun r => date r =? d) df)))%Q).
Proof.
  destruct (groupby_agg_spec Z.compare Z.compare_eq_iff
              (fun a b => Z.compare_antisym b a)
              Z_compare_trans (dated df)) as (Hs & Hk & Hg & _).
  unfold groupby_sum.
  assert (Hfst : map fst (map (fun e : Z * (Q * Z) => (fst e, fst (snd e)))
                              (groupby_agg Z.compare (dated df))) =
                 map fst (groupby_agg Z.compare (dated df))).
  { rewrite map_map. reflexivity. }
  split; [|split].
  - apply StronglySorted_map_inv with (f := fst) (R := Z.lt).
    rewrite Hfst. eapply StronglySorted_weaken; [|exact Hs].
    intros a b. apply Z.compare_lt_iff.
  - intros d. rewrite Hfst, Hk. unfold dated. rewrite map_map. reflexivity.
  - intros d t Hin. apply in_map_iff in Hin as ([k [s c]] & [= <- <-] & Hin).
    rewrite <- group_rows_dated. exact (proj1 (Hg _ _ _ Hin)).
Qed.

(** C6: the series has one entry for each of its dates, in ascending
    order; each is a date of the frame with the sum of the amounts of its
    rows; there are at most [n] entries; and a date of the frame that has
    no entry is older than every date that has one, which happens only
    when there are [n] entries: the entries are the latest [n] dates that
    occur in the data.  The dashboard takes [n = 30]. *)
Theorem daily_series_latest_dates n df :
  StronglySorted (fun a b => fst a < fst b) (daily_series n df) /\
  (length (daily_series n df) <= n)%nat /\
  (forall d t, In (d, t) (daily_series n df) ->
     In d (map date df) /\
     (t == Qsum (map amount (filter (fun r => date r =? d) df)))%Q) /\
  (forall d, In d (map date df) ->
     In d (map fst (daily_series n df)) \/
     (length (daily_series n df) = n /\
      forall d', In d' (map fst (daily_series n df)) -> d < d')) /\
  daily_spending df = daily_series 30 df.
Proof.
  destruct (groupby_sum_dates df) as (Hs & Hk & Hg).
  unfold daily_series.
  set (full := groupby_sum Z.compare (dated df)) in *.
  pose proof (tail_split n full) as Hsplit.
  rewrite Hsplit in Hs.
  apply StronglySorted_app_inv in Hs as (_ & Hout & Hcross).
  assert (Hsub : forall x, In x (tail n full) -> In x full).
  { intros x Hx. rewrite Hsplit. apply in_or_app. now right. }
  split; [exact Hout|]. split; [rewrite tail_length; lia|].
  split; [|split; [|reflexivity]].
  - intros d t Hin. apply Hsub in Hin. split; [|now apply Hg].
    apply Hk. change d with (fst (d, t)). now apply in_map.
  - intros d Hd. apply Hk in Hd. rewrite Hsplit, map_app, in_app_iff in Hd.
    destruct Hd as [Hd|Hd]; [right|now left]. split.
    + rewrite tail_length.
      destruct (firstn (length full - n) full) eqn:E; [destruct Hd|].
      assert (length (firstn (length full - n) full) <> 0)%nat
        by (rewrite E; discriminate).
      rewrite length_firstn in H. lia.
    + intros d' Hd'.
      apply in_map_iff in Hd as (x & <- & Hx).
      apply in_map_iff in Hd' as (y & <- & Hy). now apply Hcross.
Qed.

Lemma daily_series_latest_dates_witness :
  In 738905 (map date (get_expenses sample_db 1)) /\
  (15 # 2 == Qsum (map amount (filter (fun r => date r =? 738905)
                                      (get_expenses sample_db 1))))%Q.
Proof.
  apply (proj1 (proj2 (proj2
           (daily_series_latest_dates 2 (get_expenses sample_db 1))))
           738905 (15 # 2)).
  left. reflexivity.
Defined.

(** ** The largest amounts *)

Lemma amount_desc_total a b : amount_desc a b = false -> amount_desc b a = true.
Proof.
  unfold amount_desc. intros H. apply Qle_bool_iff.
  destruct (Qlt_le_dec (amount a) (amount b)) as [Hlt|Hle].
  - now apply Qlt_le_weak.
  - apply Qle_bool_iff in Hle. congruence.
Qed.

Lemma amount_desc_trans a b c :
  amount_desc a b = true -> amount_desc b c = true -> amount_desc a c = true.
Proof.
  unfold amount_desc. rewrite !Qle_bool_iff. intros H1 H2.
  now apply Qle_trans with (amount b).
Qed.

Lemma amount_desc_sorted df :
  StronglySorted (fun a b => (amount b <= amount a)%Q) (isort amount_desc df).
Proof.
  eapply StronglySorted_weaken;
    [|apply (isort_sorted amount_desc amount_desc_total amount_desc_trans)].
  intros a b H. now apply Qle_bool_iff.
Qed.

Lemma same_amount_interchangeable q x y :
  Qeq_bool (amount x) q = true -> Qeq_bool (amount y) q = true ->
  amount_desc x y = true.
Proof.
  rewrite !Qeq_bool_iff. intros Hx Hy. apply Qle_bool_iff.
  rewrite Hx, Hy. apply Qle_refl.
Qed.

(** C7: [nlargest n] returns [min n (len df)] rows of the frame, in
    descending order of amount; no row left out has a larger amount than a
    row returned; among rows of one amount the returned ones are the
    first of the frame, in the order of the frame; a frame of at most [n]
    rows is returned whole.  The report takes [n = 5] and keeps four
    columns. *)
Theorem nlargest_stable_top n df :
  length (nlargest n df) = Nat.min (Z.to_nat n) (length df) /\
  StronglySorted (fun a b => (amount b <= amount a)%Q) (nlargest n df) /\
  (exists rest,
     Permutation df (nlargest n df ++ rest) /\
     forall x y, In x (nlargest n df) -> In y rest ->
                 (amount y <= amount x)%Q) /\
  (forall q, exists later,
     filter (fun r => Qeq_bool (amount r) q) df =
     filter (fun r => Qeq_bool (amount r) q) (nlargest n df) ++ later) /\
  (len df <= n -> Permutation df (nlargest n df)) /\
  top_expenses df = map top_columns (nlargest 5 df).
Proof.
  pose proof (amount_desc_sorted df) as Hs.
  unfold nlargest.
  rewrite <- (firstn_skipn (Z.to_nat n) (isort amount_desc df)) in Hs.
  apply StronglySorted_app_inv in Hs as (Hfirst & _ & Hcross).
  split; [|split; [exact Hfirst|split; [|split; [|split; [|reflexivity]]]]].
  - rewrite length_firstn, isort_length. reflexivity.
  - exists (skipn (Z.to_nat n) (isort amount_desc df)). split.
    + rewrite firstn_skipn. apply isort_perm.
    + intros x y Hx Hy. now apply Hcross.
  - intros q.
    rewrite <- (filter_isort amount_desc (fun r => Qeq_bool (amount r) q) df)
      by apply same_amount_interchangeable.
    apply filter_firstn_prefix.
  - unfold len. intros Hle. rewrite firstn_all2.
    + apply isort_perm.
    + rewrite isort_length. lia.
Qed.

Lemma nlargest_stable_top_witness :
  Permutation (get_expenses sample_db 1) (nlargest 5 (get_expenses sample_db 1)).
Proof.
  apply (nlargest_stable_top 5 (get_expenses sample_db 1)).
  vm_compute. discriminate.
Defined.

(** ** Rounding *)

Lemma rint_nearest q : (Qabs (inject_Z (rint q) - q) <= 1 # 2)%Q.
Proof.
  pose proof (Qfloor_le q) as Hlo. pose proof (Qlt_floor q) as Hhi.
  rewrite inject_Z_plus in Hhi. change (inject_Z 1) with 1%Q in Hhi.
  apply Qabs_Qle_condition. unfold rint.
  destruct (q - inject_Z (Qfloor q) ?= 1 # 2)%Q eqn:E.
  - apply Qeq_alt in E.
    destruct (Z.even (Qfloor q)); [split; lra|].
    rewrite inject_Z_plus. change (inject_Z 1) with 1%Q. split; lra.
  - apply Qlt_alt in E. split; lra.
  - apply Qgt_alt in E.
    rewrite inject_Z_plus. change (inject_Z 1) with 1%Q. split; lra.
Qed.

Lemma round2_nearest q : (Qabs (round2 q - q) <= 1 # 200)%Q.
Proof.
  pose proof (rint_nearest (q * 100)) as H.
  apply Qabs_Qle_condition in H. apply Qabs_Qle_condition.
  unfold round2. rewrite (Qmake_Qdiv (rint (q * 100)) 100).
  set (w := inject_Z (rint (q * 100))) in *.
  change (inject_Z (Z.pos 100)) with 100%Q.
  unfold Qdiv. change (/ 100)%Q with (1 # 100)%Q. split; lra.
Qed.

(** ** The category summary *)

Lemma string_compare_eq a b : String.compare a b = Eq <-> a = b.
Proof. apply String_as_OT.cmp_eq. Qed.

Lemma string_compare_antisym a b :
  String.compare a b = CompOpp (String.compare b a).
Proof. apply String_as_OT.cmp_antisym. Qed.

Lemma string_compare_trans a b c :
  String.compare a b = Lt -> String.compare b c = Lt -> String.compare a c = Lt.
Proof.
  intros H1 H2. apply String_as_OT.cmp_lt in H1, H2.
  apply String_as_OT.cmp_lt. eapply String_as_OT.lt_trans; eauto.
Qed.

Lemma same_key_string c c' :
  same_key String.compare c c' = (c' =? c)%string.
Proof.
  unfold same_key. destruct (String.eqb_spec c' c) as [->|Hne].
  - now rewrite (proj2 (string_compare_eq c c) eq_refl).
  - destruct (String.compare c c') eqn:E; try reflexivity.
    apply string_compare_eq in E. congruence.
Qed.

Lemma group_rows_categorized c df :
  group_rows String.compare c (categorized df) =
  map (fun r => (category r, amount r))
      (filter (fun r => (category r =? c)%string) df).
Proof.
  unfold group_rows, categorized. rewrite filter_map_comm. f_equal.
  apply filter_ext. intros r. apply same_key_string.
Qed.

Lemma sorted_compare_NoDup (l : list string) :
  StronglySorted (fun a b => String.compare a b = Lt) l -> NoDup l.
Proof.
  induction 1 as [|x l Hs IH Hx]; constructor; [|assumption].
  intros Hin. rewrite Forall_forall in Hx. specialize (Hx x Hin).
  rewrite (proj2 (string_compare_eq x x) eq_refl) in Hx. discriminate.
Qed.

Lemma Total_desc_total a b : Total_desc a b = false -> Total_desc b a = true.
Proof.
  unfold Total_desc. intros H. apply Qle_bool_iff.
  destruct (Qlt_le_dec (Total a) (Total b)) as [Hlt|Hle].
  - now apply Qlt_le_weak.
  - apply Qle_bool_iff in Hle. congruence.
Qed.

Lemma Total_desc_trans a b c :
  Total_desc a b = true -> Total_desc b c = true -> Total_desc a c = true.
Proof.
  unfold Total_desc. rewrite !Qle_bool_iff. intros H1 H2.
  now apply Qle_trans with (Total b).
Qed.

Lemma sort_values_stable_admissible inp :
  sort_values_Total_desc inp (sort_values_stable inp).
Proof.
  split; [apply isort_perm|].
  apply isort_sorted; [apply Total_desc_total | apply Total_desc_trans].
Qed.

(** The summary before it is sorted. *)
Lemma summary_unsorted_spec df :
  NoDup (map s_category (summary_unsorted df)) /\
  (forall c, In c (map s_category (summary_unsorted df)) <->
             In c (map category df)) /\
  (forall e, In e (summary_unsorted df) ->
     (Total e ==
      Qsum (map amount (filter (fun r => (category r =? s_category e)%string) df)))%Q /\
     Count e = len (filter (fun r => (category r =? s_category e)%string) df) /\
     (exists z, Percentage e = (z # 100)%Q) /\
     (Qabs (Percentage e - 100 * Total e / Qsum (map amount df)) <= 1 # 200)%Q).
Proof.
  destruct (groupby_agg_spec String.compare string_compare_eq
              string_compare_antisym string_compare_trans (categorized df))
    as (Hs & Hk & Hg & Ht).
  unfold summary_unsorted, with_percentage, category_groups.
  set (g := groupby_agg String.compare (categorized df)) in *.
  assert (Hnames : map s_category
                     (map (fun e : string * (Q * Z) =>
                             mk_summary (fst e) (fst (snd e)) (snd (snd e))
                               (round2 (fst (snd e) /
                                        Qsum (map (fun e0 => fst (snd e0)) g) * 100)))
                          g) = map fst g).
  { rewrite map_map. reflexivity. }
  assert (Hgrand : (Qsum (map (fun e : string * (Q * Z) => fst (snd e)) g) ==
                    Qsum (map amount df))%Q).
  { rewrite Ht. unfold categorized. rewrite map_map. reflexivity. }
  split; [|split].
  - rewrite Hnames. now apply sorted_compare_NoDup.
  - intros c. rewrite Hnames, Hk. unfold categorized. rewrite map_map.
    reflexivity.
  - intros e He. apply in_map_iff in He as ([c [s n]] & <- & Hin).
    cbn [s_category Total Count Percentage fst snd].
    destruct (Hg _ _ _ Hin) as [Hsum Hcount].
    rewrite group_rows_categorized in Hsum, Hcount.
    rewrite map_map in Hsum. simpl in Hsum.
    split; [exact Hsum|]. split.
    + rewrite Hcount. unfold len. now rewrite length_map.
    + split; [unfold round2; eauto|].
      assert (E : (100 * s / Qsum (map amount df) ==
                   s / Qsum (map (fun e : string * (Q * Z) => fst (snd e)) g) * 100)%Q).
      { rewrite Hgrand. unfold Qdiv. ring. }
      rewrite E. apply round2_nearest.
Qed.

Lemma get_category_summary_arranged db uid out :
  get_category_summary db uid out ->
  sort_values_Total_desc (summary_unsorted (get_expenses db uid)) out.
Proof.
  unfold get_category_summary.
  destruct (get_expenses db uid) as [|r df]; simpl; [|auto].
  intros ->. split; constructor.
Qed.








(** ** The scenario of the specification

    alice's three expenses: (Food, 12.50), (Food, 7.50) and
    (Transport, 30.00), on three days. *)

Example scenario_category_summary :
  map (fun e => (s_category e, Qred (Total e), Count e, Qred (Percentage e)))
      (get_category_summary_stable sample_db 1) =
  [("Transport", 30%Q, 1, 60%Q); ("Food", 20%Q, 2, 40%Q)].
Proof. reflexivity. Qed.

Example scenario_equal_totals :
  map (fun e => (s_category e, Total e)) (get_category_summary_stable tie_db 1) =
  [("Food", 10%Q); ("Transport", 10%Q)].
Proof. reflexivity. Qed.

Example scenario_top_1 :
  map top_columns (nlargest 1 (get_expenses sample_db 1)) =
  [(738917, "Transport", 30%Q, "train")].
Proof. reflexivity. Qed.

Example scenario_daily_series :
  daily_series 2 (get_expenses sample_db 1) =
  [(738905, (15 # 2)%Q); (738917, 30%Q)].
Proof. reflexivity. Qed.

Example scenario_other_user_reads_nothing :
  get_expenses sample_db 2 = [] /\
  snd (delete_expense sample_db 2 1) = false.
Proof. split; reflexivity. Qed.

(** * Part III: further properties of the engine *)

(** ** Adding, listing and deleting *)

Lemma owned_by_refl uid eid d cat amt desc now :
  owned_by uid (mk_expense eid uid d cat amt desc now) = true.
Proof. unfold owned_by. simpl. apply Z.eqb_refl. Qed.

(** X1: after [add_expense] the user's [get_expenses] consists of the rows
    it had and of one more, which holds the arguments under the new id;
    it is still in descending order of dates. *)
Theorem add_expense_then_listed db now uid d cat amt desc :
  Permutation
    (mk_frame_row (expenses_seq db + 1) d cat amt desc now :: get_expenses db uid)
    (get_expenses (fst (add_expense db now uid d cat amt desc)) uid) /\
  StronglySorted (fun a b => date b <= date a)
    (get_expenses (fst (add_expense db now uid d cat amt desc)) uid).
Proof.
  split; [|apply get_expenses_sorted].
  unfold get_expenses. simpl.
  rewrite filter_app, map_app. simpl. rewrite owned_by_refl. simpl.
  etransitivity; [|apply isort_perm].
  etransitivity; [|apply Permutation_cons_append].
  apply perm_skip. symmetry. apply isort_perm.
Qed.

Lemma filter_negb_twice {A : Type} (p : A -> bool) l :
  filter p (filter (fun x => negb (p x)) l) = [] /\
  filter (fun x => negb (p x)) (filter (fun x => negb (p x)) l) =
  filter (fun x => negb (p x)) l.
Proof.
  split.
  - apply filter_all_false. intros x Hx. apply filter_In in Hx as [_ Hx].
    now apply negb_true_iff.
  - apply filter_all_true. intros x Hx. now apply filter_In in Hx.
Qed.

(** X2: deleting an expense a second time answers [False] and changes
    nothing. *)
Theorem delete_expense_twice db uid expense_id :
  delete_expense (fst (delete_expense db uid expense_id)) uid expense_id =
  (fst (delete_expense db uid expense_id), false).
Proof.
  unfold delete_expense at 1. simpl.
  destruct (filter_negb_twice (delete_matches expense_id uid) (expenses db))
    as [E1 E2].
  rewrite E1, E2. reflexivity.
Qed.

(** X3: after [delete_expense], whatever it answered, the caller's
    [get_expenses] holds the rows it held under the other ids, and no row
    under the id that was given. *)
Theorem delete_expense_then_listed db uid expense_id fr :
  In fr (get_expenses (fst (delete_expense db uid expense_id)) uid) <->
  In fr (get_expenses db uid) /\ id fr <> expense_id.
Proof.
  rewrite !get_expenses_In. simpl. split.
  - intros (r & Hin & Hu & ->). apply filter_In in Hin as [Hin Hm].
    split; [eauto|]. simpl. intros Hid.
    assert (delete_matches expense_id uid r = true)
      by now apply delete_matches_iff.
    rewrite H in Hm. discriminate.
  - intros [(r & Hin & Hu & ->) Hid]. simpl in Hid.
    exists r. split; [|auto]. apply filter_In. split; [assumption|].
    destruct (delete_matches expense_id uid r) eqn:E; [|reflexivity].
    apply delete_matches_iff in E. tauto.
Qed.

Lemma filter_snoc_fresh expense_id uid l r :
  ~ In expense_id (map e_id l) ->
  delete_matches expense_id uid r = true ->
  filter (fun x => negb (delete_matches expense_id uid x)) (l ++ [r]) = l /\
  filter (delete_matches expense_id uid) (l ++ [r]) = [r].
Proof.
  intros Hfresh Hr.
  assert (Hl : forall x, In x l -> delete_matches expense_id uid x = false).
  { intros x Hx. destruct (delete_matches expense_id uid x) eqn:E; [|reflexivity].
    apply delete_matches_iff in E as [<- _]. exfalso. apply Hfresh.
    now apply in_map. }
  rewrite !filter_app. simpl. rewrite Hr. simpl. split.
  - rewrite app_nil_r. apply filter_all_true. intros x Hx.
    now rewrite (Hl x Hx).
  - now rewrite (filter_all_false _ _ Hl).
Qed.

(** X4: deleting the expense that was just added answers [True] and puts
    the table back to the rows it had; the counter of ids stays advanced,
    so that the id is not handed out again. *)
Theorem add_then_delete_restores db now uid d cat amt desc :
  wf_db db ->
  delete_expense (fst (add_expense db now uid d cat amt desc)) uid
                 (expenses_seq db + 1) =
  (mk_db (users db) (users_seq db) (expenses db) (expenses_seq db + 1), true).
Proof.
  intros (He & _). unfold delete_expense, len. simpl.
  destruct (filter_snoc_fresh (expenses_seq db + 1) uid (expenses db)
              (mk_expense (expenses_seq db + 1) uid d cat amt desc now)
              (ids_in_range_fresh _ _ He)) as [E1 E2].
  { apply delete_matches_iff. split; reflexivity. }
  rewrite E1, E2. reflexivity.
Qed.

Lemma add_then_delete_restores_witness :
  expenses (fst (delete_expense
                   (fst (add_expense sample_db 9 1 738920 "Other" 5 "gift"))
                   1 4)) = expenses sample_db.
Proof.
  assert (Hwf : wf_db sample_db)
    by (apply (reachable_wf toy_digest); repeat constructor).
  exact (f_equal (fun r => expenses (fst r))
           (add_then_delete_restores sample_db 9 1 738920 "Other" 5 "gift" Hwf)).
Defined.

(** ** The life of a database *)

Lemma db_step_old_rows sha db db' bound :
  db_step sha db db' ->
  bound <= expenses_seq db ->
  bound <= expenses_seq db' /\
  forall r, In r (expenses db') -> e_id r <= bound -> In r (expenses db).
Proof.
  intros [db0 now uname password mail|db0 now uid d cat amt desc|db0 uid eid] Hb.
  - unfold create_user. destruct (existsb _ _); simpl; auto.
  - simpl. split; [lia|]. intros r Hin Hid.
    apply in_app_or in Hin as [Hin|[<-|[]]]; [assumption|]. simpl in Hid. lia.
  - simpl. split; [assumption|]. intros r Hin _. now apply filter_In in Hin.
Qed.

Lemma evolves_old_rows sha db db' :
  evolves sha db db' ->
  expenses_seq db <= expenses_seq db' /\
  forall r, In r (expenses db') -> e_id r <= expenses_seq db ->
            In r (expenses db).
Proof.
  induction 1 as [|db1 db2 Hstep _ [IHseq IHrows]].
  - split; [lia|auto].
  - destruct (db_step_old_rows _ _ _ _ Hstep IHseq) as [Hseq Hrows].
    split; [assumption|]. intros r Hin Hid. apply IHrows; auto.
Qed.

Lemma NoDup_map_inj_in {A B : Type} (f : A -> B) l x y :
  NoDup (map f l) -> In x l -> In y l -> f x = f y -> x = y.
Proof.
  induction l as [|a l IH]; simpl; intros Hnd Hx Hy Hf; [destruct Hx|].
  inversion Hnd as [|? ? Ha Hl]; subst.
  destruct Hx as [->|Hx], Hy as [->|Hy]; auto.
  - exfalso. apply Ha. rewrite Hf. now apply in_map.
  - exfalso. apply Ha. rewrite <- Hf. now apply in_map.
Qed.

(** X5: an id names one expense for ever: whatever is created, added and
    deleted afterwards, a row found under the id of a row of the table is
    that row, with its owner and its fields; an id that was deleted is
    not given to another expense. *)
Theorem expense_id_never_reused sha db db' r r' :
  wf_db db ->
  evolves sha db db' ->
  In r (expenses db) -> In r' (expenses db') -> e_id r' = e_id r ->
  r' = r.
Proof.
  intros ((_ & Hnd & Hrange) & _) Hev Hr Hr' Hid.
  destruct (evolves_old_rows _ _ _ Hev) as [_ Hrows].
  rewrite Forall_forall in Hrange.
  assert (Hle : e_id r <= expenses_seq db).
  { apply (Hrange (e_id r)). now apply in_map. }
  apply (NoDup_map_inj_in e_id (expenses db)); auto.
  apply Hrows; [assumption|]. lia.
Qed.

(** X6: in every database the engine can build, an expense id occurs on
    one row, a user id on one row, and a username on one row. *)
Theorem reachable_keys_unique sha db :
  reachable sha db ->
  NoDup (map e_id (expenses db)) /\
  NoDup (map u_id (users db)) /\
  NoDup (map username (users db)).
Proof.
  intros H. apply reachable_wf in H as ((_ & He & _) & (_ & Hu & _) & Hn).
  auto.
Qed.

Lemma find_app_some {A : Type} (p : A -> bool) l1 l2 x :
  find p l1 = Some x -> find p (l1 ++ l2) = Some x.
Proof.
  induction l1 as [|a l1 IH]; simpl; [discriminate|].
  destruct (p a); auto.
Qed.

Lemma db_step_authenticate sha db db' uname password x :
  db_step sha db db' ->
  authenticate_user sha db uname password = Some x ->
  authenticate_user sha db' uname password = Some x.
Proof.
  intros [db0 now u p mail|db0 now uid d cat amt desc|db0 uid eid]; auto.
  unfold create_user. destruct (existsb _ _); simpl; [auto|].
  unfold authenticate_user. simpl.
  destruct (find _ (users db0)) as [r|] eqn:E; [|discriminate].
  now rewrite (find_app_some _ _ _ _ E).
Qed.

(** X7: an account stays: credentials that log in are accepted, with the
    same user id, after any further sign-ups, additions and deletions. *)
Theorem account_persists sha db db' uname password x :
  evolves sha db db' ->
  authenticate_user sha db uname password = Some x ->
  authenticate_user sha db' uname password = Some x.
Proof.
  induction 1 as [|db1 db2 Hstep _ IH]; [auto|].
  intros H. eapply db_step_authenticate; eauto.
Qed.

Lemma expense_id_never_reused_witness :
  mk_expense 1 1 738890 "Food" (25 # 2) "lunch" 0 = lunch_row.
Proof.
  apply (expense_id_never_reused toy_digest sample_db
           (fst (add_expense (fst (delete_expense sample_db 1 2))
                             9 1 738920 "Other" 5 "gift"))).
  - apply (reachable_wf toy_digest). repeat constructor.
  - eapply Relation_Operators.rtn1_trans; [apply step_add_expense|].
    eapply Relation_Operators.rtn1_trans; [apply step_delete_expense|].
    apply rtn1_refl.
  - left. reflexivity.
  - left. reflexivity.
  - reflexivity.
Defined.

Lemma reachable_keys_unique_witness :
  NoDup (map e_id (expenses shared_db)) /\
  NoDup (map u_id (users shared_db)) /\
  NoDup (map username (users shared_db)).
Proof.
  apply (reachable_keys_unique toy_digest). repeat constructor.
Defined.

Lemma account_persists_witness :
  authenticate_user toy_digest shared_db "alice" "wonderland" =
  Some (1, "alice").
Proof.
  apply (account_persists toy_digest alice_only shared_db).
  - eapply Relation_Operators.rtn1_trans; [apply step_add_expense|].
    eapply Relation_Operators.rtn1_trans; [apply step_add_expense|].
    eapply Relation_Operators.rtn1_trans; [apply step_add_expense|].
    eapply Relation_Operators.rtn1_trans; [apply step_add_expense|].
    eapply Relation_Operators.rtn1_trans; [apply step_create_user|]. apply rtn1_refl.
  - reflexivity.
Defined.

(** ** Signing up and logging in *)

Lemma nonempty_true s : nonempty s = true <-> s <> "".
Proof. unfold nonempty. rewrite negb_true_iff. apply String.eqb_neq. Qed.

Section PageFacts.
Variable sha : string -> string.

(** X8: the Login form changes the session only when both fields are
    filled and a stored account has the name with the digest of the
    password, and then the session carries the id and the name of such an
    account; with an empty field it only warns; a name nobody has and a
    wrong password are answered by the same message. *)
Theorem login_submit_sound db s uname password :
  ((uname = "" \/ password = "") ->
   login_submit sha db s uname password =
     (s, St_warning "Please fill in all fields")) /\
  (fst (login_submit sha db s uname password) <> s ->
   exists r, In r (users db) /\ username r = uname /\
             password_hash r = sha password /\
             fst (login_submit sha db s uname password) =
               mk_session true (Some (u_id r)) (Some uname)
                          (tracker s) (current_user_id s)) /\
  (uname <> "" -> password <> "" ->
   (forall r, In r (users db) -> username r = uname ->
              password_hash r <> sha password) ->
   login_submit sha db s uname password =
     (s, St_error "Invalid username or password")).
Proof.
  unfold login_submit. split; [|split].
  - intros [-> | ->]; simpl; [reflexivity|].
    now rewrite andb_false_r.
  - destruct (nonempty uname && nonempty password); [|now intros []].
    destruct (authenticate_user sha db uname password) as [[i n]|] eqn:E;
      [|now intros []].
    intros _. unfold authenticate_user, hash_password in E.
    destruct (find _ (users db)) as [r|] eqn:Ef; [|discriminate].
    injection E as <- <-. apply find_some in Ef as [Hin Hm].
    apply credentials_match_iff in Hm as [Hn Hh].
    exists r. simpl. rewrite Hn. auto.
  - intros Hu Hp Hnone.
    apply nonempty_true in Hu, Hp. rewrite Hu, Hp. simpl.
    unfold authenticate_user, hash_password.
    destruct (find _ (users db)) as [r|] eqn:Ef; [|reflexivity].
    apply find_some in Ef as [Hin Hm].
    apply credentials_match_iff in Hm as [Hn Hh].
    now apply Hnone in Hh.
Qed.

(** X9: the Sign Up form has four outcomes.  With an empty name or
    password it warns; with a confirmation that differs from the password,
    or with a name that is taken, it reports the error; in these cases the
    database is what it was.  With both fields filled, the confirmation
    equal to the password and a free name it appends that one account,
    under the next id and with the digest of the password, and the Login
    form then accepts the name with the password, putting the new id in
    the session.  The expenses are never touched. *)
Theorem signup_submit_guarded db now new_username new_email new_password confirm :
  expenses
    (fst (signup_submit sha db now new_username new_email new_password confirm)) =
    expenses db /\
  ((new_username = "" \/ new_password = "") ->
   signup_submit sha db now new_username new_email new_password confirm =
     (db, St_warning "Please fill in all required fields")) /\
  (new_username <> "" -> new_password <> "" -> confirm <> new_password ->
   signup_submit sha db now new_username new_email new_password confirm =
     (db, St_error "Passwords don't match")) /\
  (new_username <> "" -> new_password <> "" -> confirm = new_password ->
   (exists r, In r (users db) /\ username r = new_username) ->
   signup_submit sha db now new_username new_email new_password confirm =
     (db, St_error "Username already exists!")) /\
  (new_username <> "" -> new_password <> "" -> confirm = new_password ->
   (forall r, In r (users db) -> username r <> new_username) ->
   signup_submit sha db now new_username new_email new_password confirm =
     (mk_db (users db ++
             [mk_user (users_seq db + 1) new_username (sha new_password)
                      new_email now])
            (users_seq db + 1) (expenses db) (expenses_seq db),
      St_success "User created successfully! Please login.") /\
   forall s,
     login_submit sha
       (fst (signup_submit sha db now new_username new_email new_password confirm))
       s new_username new_password =
       (mk_session true (Some (users_seq db + 1)) (Some new_username)
                   (tracker s) (current_user_id s),
        St_success "Login successful!")).
Proof.
  unfold signup_submit. split; [|split; [|split; [|split]]].
  - destruct (nonempty new_username && nonempty new_password); [|reflexivity].
    destruct (new_password =? confirm)%string; [|reflexivity].
    unfold create_user. destruct (existsb _ (users db)); reflexivity.
  - intros [-> | ->]; simpl; [reflexivity|]. now rewrite andb_false_r.
  - intros Hu Hp Hc. apply nonempty_true in Hu, Hp. rewrite Hu, Hp. simpl.
    destruct (String.eqb_spec new_password confirm) as [E|_]; [|reflexivity].
    now subst.
  - intros Hu Hp -> Htaken. apply nonempty_true in Hu, Hp.
    rewrite Hu, Hp, String.eqb_refl. simpl.
    now rewrite (create_user_duplicate sha db now _ new_password new_email Htaken).
  - intros Hu Hp -> Hfree. apply nonempty_true in Hu as Eu.
    apply nonempty_true in Hp as Ep. rewrite Eu, Ep, String.eqb_refl. simpl.
    pose proof (authenticate_new_user sha db now new_username new_password
                  new_email) as Hauth.
    unfold create_user in *.
    assert (Et : existsb (fun r => (username r =? new_username)%string)
                         (users db) = false).
    { apply not_true_is_false. intros Ht. apply username_taken_iff in Ht.
      destruct Ht as (r & Hin & Hr). now apply (Hfree r). }
    rewrite Et in *. simpl in *. split; [reflexivity|].
    intros s. unfold login_submit. rewrite Eu, Ep. simpl.
    now rewrite (Hauth eq_refl).
Qed.
End PageFacts.

Lemma login_submit_sound_witness :
  login_submit toy_digest sample_users new_session "alice" "" =
    (new_session, St_warning "Please fill in all fields") /\
  login_submit toy_digest sample_users new_session "carol" "builder" =
    (new_session, St_error "Invalid username or password") /\
  exists r, In r (users sample_users) /\ username r = "bob" /\
            password_hash r = toy_digest "builder" /\
            fst (login_submit toy_digest sample_users new_session "bob" "builder") =
              mk_session true (Some (u_id r)) (Some "bob") None None.
Proof.
  destruct (login_submit_sound toy_digest sample_users new_session "alice" "")
    as (Hwarn & _ & _).
  destruct (login_submit_sound toy_digest sample_users new_session "carol" "builder")
    as (_ & _ & Hbad).
  destruct (login_submit_sound toy_digest sample_users new_session "bob" "builder")
    as (_ & Hok & _).
  split; [apply Hwarn; now right|]. split.
  - apply Hbad; try discriminate.
    intros r [<-|[<-|[]]]; simpl; intros; discriminate.
  - apply Hok. discriminate.
Defined.

(** ** The tracker of the session *)

Lemma option_Z_eqb_eq a b : option_Z_eqb a b = true -> a = b.
Proof.
  destruct a, b; simpl; try discriminate; [|reflexivity].
  intros H. apply Z.eqb_eq in H. now subst.
Qed.

Lemma session_reachable_inv sha s : session_reachable sha s -> session_inv s.
Proof.
  induction 1 as [|db s uname password _ [I1 I2] _|s _ [I1 I2] Hin|s _ [I1 I2] _].
  - split; simpl; intros; discriminate.
  - unfold login_submit. destruct (nonempty uname && nonempty password);
      [|split; assumption].
    destruct (authenticate_user sha db uname password) as [[i n]|];
      [|split; assumption].
    split; simpl; eauto.
  - unfold ensure_tracker.
    destruct (tracker s) as [t|] eqn:Et.
    + destruct (negb _); [|split; [assumption|now rewrite Et]].
      split; simpl; [assumption|]. now intros t' [= <-].
    + split; simpl; [assumption|]. now intros t' [= <-].
  - split; simpl; [discriminate|assumption].
Qed.

(** X10: in every session the browser can reach, once somebody is logged
    in the head of [main] leaves a tracker built for the id of that user,
    also when the tracker of the user logged in before is still in the
    session. *)
Theorem tracker_serves_logged_in_user sha s :
  session_reachable sha s ->
  logged_in s = true ->
  exists uid,
    s_user_id s = Some uid /\
    tracker (ensure_tracker s) = Some (Some uid) /\
    s_user_id (ensure_tracker s) = Some uid.
Proof.
  intros Hr Hin. destruct (session_reachable_inv _ _ Hr) as [I1 I2].
  destruct (I1 Hin) as [uid Hu]. exists uid. split; [assumption|].
  unfold ensure_tracker. destruct (tracker s) as [t|] eqn:Et.
  - destruct (option_Z_eqb (current_user_id s) (s_user_id s)) eqn:E; simpl.
    + apply option_Z_eqb_eq in E. pose proof (I2 t eq_refl) as Ht.
      rewrite Et. split; [|assumption]. congruence.
    + rewrite Hu. auto.
  - simpl. rewrite Hu. auto.
Qed.

Lemma signup_submit_guarded_witness :
  signup_submit toy_digest alice_only 3 "" "" "builder" "builder" =
    (alice_only, St_warning "Please fill in all required fields") /\
  signup_submit toy_digest alice_only 3 "bob" "" "builder" "bulider" =
    (alice_only, St_error "Passwords don't match") /\
  signup_submit toy_digest alice_only 3 "alice" "" "builder" "builder" =
    (alice_only, St_error "Username already exists!") /\
  users (fst (signup_submit toy_digest alice_only 3 "bob" "" "builder" "builder")) =
    users alice_only ++ [mk_user 2 "bob" (toy_digest "builder") "" 3] /\
  login_submit toy_digest
    (fst (signup_submit toy_digest alice_only 3 "bob" "" "builder" "builder"))
    new_session "bob" "builder" =
    (mk_session true (Some 2) (Some "bob") None None,
     St_success "Login successful!").
Proof.
  destruct (signup_submit_guarded toy_digest alice_only 3 "" "" "builder" "builder")
    as (_ & Hwarn & _).
  destruct (signup_submit_guarded toy_digest alice_only 3 "bob" "" "builder" "bulider")
    as (_ & _ & Hmis & _).
  destruct (signup_submit_guarded toy_digest alice_only 3 "alice" "" "builder" "builder")
    as (_ & _ & _ & Hdup & _).
  destruct (signup_submit_guarded toy_digest alice_only 3 "bob" "" "builder" "builder")
    as (_ & _ & _ & _ & Hnew).
  split; [apply Hwarn; now left|].
  split; [apply Hmis; discriminate|].
  split.
  { apply Hdup; try discriminate; try reflexivity.
    exists (mk_user 1 "alice" (toy_digest "wonderland") "" 0).
    split; [left; reflexivity | reflexivity]. }
  assert (Hfree : forall r, In r (users alice_only) -> username r <> "bob")
    by (intros r [<-|[]]; discriminate).
  destruct (Hnew ltac:(discriminate) ltac:(discriminate) eq_refl Hfree)
    as [Hsign Hlogin].
  split; [now rewrite Hsign | apply Hlogin].
Defined.

Lemma tracker_serves_logged_in_user_witness :
  tracker bob_session = Some (Some 2) /\ s_user_id bob_session = Some 2.
Proof.
  destruct (tracker_serves_logged_in_user toy_digest
              (fst (login_submit toy_digest sample_users
                      (logout (ensure_tracker
                                 (fst (login_submit toy_digest sample_users
                                         new_session "alice" "wonderland"))))
                      "bob" "builder")))
    as (uid & Hu & Ht & Hs).
  - apply sess_login; [|reflexivity].
    apply sess_logout; [|reflexivity].
    apply sess_main; [|reflexivity].
    apply sess_login; [|reflexivity].
    apply sess_new.
  - reflexivity.
  - injection Hu as <-. split; [exact Ht | exact Hs].
Defined.

(** ** Sums over arrangements *)

Lemma Qsum_perm l l' : Permutation l l' -> (Qsum l == Qsum l')%Q.
Proof.
  induction 1 as [|x l l' _ IH|x y l|l l' l'' _ IH1 _ IH2].
  - reflexivity.
  - rewrite !Qsum_cons, IH. reflexivity.
  - rewrite !Qsum_cons. ring.
  - now rewrite IH1.
Qed.

Lemma Zsum_perm l l' :
  Permutation l l' -> fold_right Z.add 0 l = fold_right Z.add 0 l'.
Proof.
  induction 1; simpl; lia.
Qed.

Lemma upsert_counts {K : Type} (cmp : K -> K -> comparison) k v acc :
  fold_right Z.add 0 (map (fun e => snd (snd e)) (upsert cmp k v acc)) =
  fold_right Z.add 0 (map (fun e : K * (Q * Z) => snd (snd e)) acc) + 1.
Proof.
  induction acc as [|[k2 [s c]] t IH]; cbn [upsert]; [reflexivity|].
  destruct (cmp k k2); cbn [map fold_right snd]; [lia|lia|].
  rewrite IH. lia.
Qed.

Lemma groupby_agg_counts {K : Type} (cmp : K -> K -> comparison) rows :
  fold_right Z.add 0 (map (fun e => snd (snd e)) (groupby_agg cmp rows)) =
  len rows.
Proof.
  induction rows as [|[k v] rows IH] using rev_ind; [reflexivity|].
  rewrite groupby_agg_snoc, upsert_counts, IH, len_snoc. reflexivity.
Qed.

Lemma category_groups_total df :
  (Qsum (map (fun e : string * (Q * Z) => fst (snd e)) (category_groups df)) ==
   Qsum (map amount df))%Q.
Proof.
  destruct (groupby_agg_spec String.compare string_compare_eq
              string_compare_antisym string_compare_trans (categorized df))
    as (_ & _ & _ & Ht).
  unfold category_groups. rewrite Ht. unfold categorized.
  rewrite map_map. reflexivity.
Qed.

Lemma get_category_summary_has_result db uid :
  get_category_summary db uid (get_category_summary_stable db uid).
Proof.
  unfold get_category_summary, get_category_summary_stable.
  destruct (empty (get_expenses db uid)); [reflexivity|].
  apply sort_values_stable_admissible.
Qed.

Lemma arranged_totals_sum df out :
  sort_values_Total_desc (summary_unsorted df) out ->
  (Qsum (map Total out) == Qsum (map amount df))%Q.
Proof.
  intros [Hperm _].
  rewrite <- (Qsum_perm _ _ (Permutation_map Total Hperm)).
  unfold summary_unsorted, with_percentage. rewrite map_map. simpl.
  apply category_groups_total.
Qed.

(** X11: a category summary counts every row once: each entry counts at
    least one row, and the counts add up to the number of rows. *)
Theorem category_summary_accounts db uid out :
  get_category_summary db uid out ->
  (forall e, In e out -> 1 <= Count e) /\
  fold_right Z.add 0 (map Count out) = len (get_expenses db uid).
Proof.
  intros H. apply get_category_summary_arranged in H as [Hperm _].
  split.
  - intros e Hin. apply (Permutation_in _ (Permutation_sym Hperm)) in Hin.
    destruct (summary_unsorted_spec (get_expenses db uid)) as (_ & Hk & He).
    destruct (He e Hin) as (_ & -> & _).
    assert (Hc : In (s_category e) (map category (get_expenses db uid))).
    { apply Hk. now apply in_map. }
    apply in_map_iff in Hc as (r & Hr & Hin').
    assert (Hf : In r (filter (fun r0 => (category r0 =? s_category e)%string)
                              (get_expenses db uid))).
    { apply filter_In. split; [assumption|]. now apply String.eqb_eq. }
    unfold len. destruct (filter _ _); [destruct Hf|]. simpl length. lia.
  - rewrite <- (Zsum_perm _ _ (Permutation_map Count Hperm)).
    unfold summary_unsorted, with_percentage. rewrite map_map. simpl.
    unfold category_groups. rewrite groupby_agg_counts.
    unfold categorized, len. now rewrite length_map.
Qed.

Lemma category_summary_accounts_witness :
  Forall (fun e => 1 <= Count e) (get_category_summary_stable sample_db 1) /\
  fold_right Z.add 0 (map Count (get_category_summary_stable sample_db 1)) = 3.
Proof.
  destruct (category_summary_accounts sample_db 1
              (get_category_summary_stable sample_db 1)
              (get_category_summary_has_result sample_db 1)) as [H1 H2].
  split; [now apply Forall_forall | exact H2].
Defined.

(** X12: on the Analytics page, which reads the summary only when the
    user has expenses, the summary has a first entry, and no category
    has a larger total than it: [summary.index[0]] is there and is a top
    category. *)
Theorem category_summary_top db uid out :
  get_category_summary db uid out ->
  get_expenses db uid <> [] ->
  exists top rest,
    out = top :: rest /\
    In (s_category top) (map category (get_expenses db uid)) /\
    forall e, In e out -> (Total e <= Total top)%Q.
Proof.
  intros H Hne.
  apply get_category_summary_arranged in H as [Hperm Hs].
  destruct (summary_unsorted_spec (get_expenses db uid)) as (_ & Hk & _).
  assert (Hk' : forall c, In c (map s_category out) <->
                          In c (map category (get_expenses db uid))).
  { intros c. rewrite <- Hk. split; apply Permutation_in;
      apply Permutation_map; [symmetry|]; assumption. }
  destruct out as [|top rest].
  - exfalso. destruct (get_expenses db uid) as [|r df] eqn:E; [now apply Hne|].
    apply (proj2 (Hk' (category r))). now left.
  - exists top, rest. split; [reflexivity|]. split.
    + apply Hk'. now left.
    + inversion Hs as [|? ? _ Hall]; subst. rewrite Forall_forall in Hall.
      intros e [<-|He]; [apply Qle_refl|].
      apply Qle_bool_iff. now apply Hall.
Qed.

Lemma category_summary_top_witness :
  exists top rest,
    get_category_summary_stable sample_db 1 = top :: rest /\
    In (s_category top) (map category (get_expenses sample_db 1)) /\
    forall e, In e (get_category_summary_stable sample_db 1) ->
              (Total e <= Total top)%Q.
Proof.
  apply (category_summary_top sample_db 1).
  - apply get_category_summary_has_result.
  - discriminate.
Defined.

(** ** The breakdown of a month *)

Lemma monthly_breakdown_unsorted_In monthly_data e :
  In e (monthly_breakdown_unsorted monthly_data) ->
  Percentage e =
    round2 (Total e / Qsum (map amount monthly_data) * 100)%Q /\
  exists e', In e' (summary_unsorted monthly_data) /\
             s_category e' = s_category e /\ Total e' = Total e /\
             Count e' = Count e.
Proof.
  unfold monthly_breakdown_unsorted, summary_unsorted, with_percentage.
  intros He. apply in_map_iff in He as (g & <- & Hg). split; [reflexivity|].
  eexists. split; [apply in_map; exact Hg|]. simpl. auto.
Qed.

Lemma monthly_breakdown_unsorted_names monthly_data :
  map s_category (monthly_breakdown_unsorted monthly_data) =
  map s_category (summary_unsorted monthly_data).
Proof.
  unfold monthly_breakdown_unsorted, summary_unsorted, with_percentage.
  now rewrite !map_map.
Qed.

(** X13: the category table of the Monthly Report has a result for every
    frame; a result has one entry for each category of the rows of the
    month, with the sum of its amounts and the number of its rows, in
    descending order of total; for positive amounts its percentage is a
    multiple of 0.01 within half a hundredth of total / total of the
    month * 100. *)
Theorem monthly_breakdown_sound monthly_data :
  (exists out, monthly_breakdown monthly_data out) /\
  forall out,
    monthly_breakdown monthly_data out ->
    NoDup (map s_category out) /\
    (forall c, In c (map s_category out) <-> In c (map category monthly_data)) /\
    (forall e, In e out ->
       (Total e ==
        Qsum (map amount
                (filter (fun r => (category r =? s_category e)%string)
                        monthly_data)))%Q /\
       Count e =
         len (filter (fun r => (category r =? s_category e)%string)
                     monthly_data)) /\
    ((forall r, In r monthly_data -> (0 < amount r)%Q) ->
     forall e, In e out ->
       (exists z, Percentage e = (z # 100)%Q) /\
       (Qabs (Percentage e - Total e / Qsum (map amount monthly_data) * 100)
        <= 1 # 200)%Q) /\
    StronglySorted (fun a b => (Total b <= Total a)%Q) out.
Proof.
  split.
  - exists (sort_values_stable (monthly_breakdown_unsorted monthly_data)).
    apply sort_values_stable_admissible.
  - intros out [Hperm Hsorted].
    destruct (summary_unsorted_spec monthly_data) as (Hnd & Hk & He).
    rewrite <- monthly_breakdown_unsorted_names in Hnd, Hk.
    split; [|split; [|split; [|split]]].
    + eapply Permutation_NoDup; [|exact Hnd]. now apply Permutation_map.
    + intros c. rewrite <- Hk. split; apply Permutation_in;
        apply Permutation_map; [symmetry|]; assumption.
    + intros e Hin. apply (Permutation_in _ (Permutation_sym Hperm)) in Hin.
      destruct (monthly_breakdown_unsorted_In _ _ Hin)
        as (_ & e' & Hin' & Hc & Ht & Hn).
      destruct (He e' Hin') as (H1 & H2 & _).
      rewrite Hc, Ht in H1. rewrite Hc, Hn in H2. auto.
    + intros _ e Hin. apply (Permutation_in _ (Permutation_sym Hperm)) in Hin.
      destruct (monthly_breakdown_unsorted_In _ _ Hin) as (-> & _).
      split; [unfold round2; eauto | apply round2_nearest].
    + eapply StronglySorted_weaken; [|exact Hsorted].
      intros a b Hab. now apply Qle_bool_iff.
Qed.

(** X14: the category totals of the dashboard chart and of the Summary
    sheet list every category of the frame once, in ascending order of
    name, each with the sum of the amounts of its rows; they are the
    names and totals of the category summary before it is sorted. *)
Theorem category_totals_sound expenses_df :
  StronglySorted (fun a b => String.compare (fst a) (fst b) = Lt)
    (category_totals expenses_df) /\
  (forall c, In c (map fst (category_totals expenses_df)) <->
             In c (map category expenses_df)) /\
  (forall c t, In (c, t) (category_totals expenses_df) ->
     (t == Qsum (map amount
                   (filter (fun r => (category r =? c)%string) expenses_df)))%Q) /\
  category_totals expenses_df =
    map (fun e => (s_category e, Total e)) (summary_unsorted expenses_df).
Proof.
  destruct (groupby_agg_spec String.compare string_compare_eq
              string_compare_antisym string_compare_trans
              (categorized expenses_df)) as (Hs & Hk & Hg & _).
  unfold category_totals, groupby_sum.
  assert (Hfst : map fst (map (fun e : string * (Q * Z) => (fst e, fst (snd e)))
                              (groupby_agg String.compare (categorized expenses_df))) =
                 map fst (groupby_agg String.compare (categorized expenses_df))).
  { rewrite map_map. reflexivity. }
  split; [|split; [|split]].
  - apply StronglySorted_map_inv with (f := fst)
      (R := fun a b => String.compare a b = Lt).
    now rewrite Hfst.
  - intros c. rewrite Hfst, Hk. unfold categorized. rewrite map_map.
    reflexivity.
  - intros c t Hin. apply in_map_iff in Hin as ([k [s n]] & [= <- <-] & Hin).
    destruct (Hg _ _ _ Hin) as [Hsum _].
    rewrite group_rows_categorized, map_map in Hsum. exact Hsum.
  - unfold summary_unsorted, with_percentage, category_groups.
    rewrite map_map. reflexivity.
Qed.

(** ** The percentages of a summary *)

Lemma len_cons {A : Type} (x : A) l : len (x :: l) = len l + 1.
Proof. unfold len. simpl length. lia. Qed.

Lemma Qsum_near {A : Type} (f g : A -> Q) l :
  (forall e, In e l -> (Qabs (f e - g e) <= 1 # 200)%Q) ->
  (Qabs (Qsum (map f l) - Qsum (map g l)) <= inject_Z (len l) * (1 # 200))%Q.
Proof.
  induction l as [|a l IH]; intros H.
  - apply Qabs_Qle_condition. unfold Qsum, len. simpl. split; discriminate.
  - assert (Ha : (Qabs (f a - g a) <= 1 # 200)%Q) by (apply H; now left).
    assert (Hl : (Qabs (Qsum (map f l) - Qsum (map g l))
                  <= inject_Z (len l) * (1 # 200))%Q).
    { apply IH. intros e He. apply H. now right. }
    apply Qabs_Qle_condition in Ha, Hl. apply Qabs_Qle_condition.
    cbn [map]. rewrite !Qsum_cons, len_cons, inject_Z_plus.
    change (inject_Z 1) with 1%Q. split; lra.
Qed.

Lemma Qsum_scaled {A : Type} (h : A -> Q) (c d : Q) l :
  (Qsum (map (fun e => c * h e / d) l) == c * Qsum (map h l) / d)%Q.
Proof.
  induction l as [|a l IH]; cbn [map].
  - unfold Qsum, Qdiv. simpl. ring.
  - rewrite !Qsum_cons, IH. unfold Qdiv. ring.
Qed.

(** X15: the percentages of a summary add up to 100 within half a
    hundredth for each category (for a sum of amounts other than 0). *)
Theorem category_percentages_sum db uid out :
  get_category_summary db uid out ->
  ~ (Qsum (map amount (get_expenses db uid)) == 0)%Q ->
  (Qabs (Qsum (map Percentage out) - 100) <= inject_Z (len out) * (1 # 200))%Q.
Proof.
  intros H Hgrand. apply get_category_summary_arranged in H.
  pose proof (arranged_totals_sum _ _ H) as Htot. destruct H as [Hperm _].
  destruct (summary_unsorted_spec (get_expenses db uid)) as (_ & _ & He).
  set (grand := Qsum (map amount (get_expenses db uid))) in *.
  assert (Hnear : forall e, In e out ->
            (Qabs (Percentage e - 100 * Total e / grand) <= 1 # 200)%Q).
  { intros e Hin. apply (Permutation_in _ (Permutation_sym Hperm)) in Hin.
    now destruct (He e Hin) as (_ & _ & _ & Hb). }
  pose proof (Qsum_near Percentage (fun e => 100 * Total e / grand)%Q out Hnear)
    as Hsum.
  rewrite (Qsum_scaled Total 100 grand out), Htot in Hsum.
  assert (E : (100 * grand / grand == 100)%Q) by (field; exact Hgrand).
  now rewrite E in Hsum.
Qed.

Lemma category_percentages_sum_witness :
  (Qabs (Qsum (map Percentage (get_category_summary_stable sample_db 1)) - 100)
   <= inject_Z 2 * (1 # 200))%Q.
Proof.
  apply (category_percentages_sum sample_db 1).
  - apply get_category_summary_has_result.
  - vm_compute. discriminate.
Defined.

(** ** The slice of a month *)

Lemma ord2ymd_month_range n :
  1 <= snd (fst (ord2ymd n)) <= 12.
Proof.
  unfold ord2ymd.
  set (d := (((n - 1) mod 146097) mod 36524) mod 1461 mod 365).
  assert (Hd : 0 <= d < 365) by (apply Z.mod_pos_bound; lia).
  rewrite Z.shiftr_div_pow2 by lia. change (2 ^ 5) with 32.
  set (m := (d + 50) / 32).
  assert (Hm : 1 <= m <= 12).
  { split.
    - apply Z.div_le_lower_bound; lia.
    - assert (m < 13); [|lia]. apply Z.div_lt_upper_bound; lia. }
  destruct (_ || _); [simpl; lia|].
  destruct (d <? _) eqn:E; simpl; [|lia].
  assert (m <> 1); [|lia].
  intros Hm1. rewrite Hm1 in E. simpl in E. apply Z.ltb_lt in E. lia.
Qed.

Lemma in_month_iff month year r :
  in_month month year r = true <-> dt_month r = month /\ dt_year r = year.
Proof. unfold in_month. now rewrite andb_true_iff, !Z.eqb_eq. Qed.

Lemma get_monthly_data_as_filter db uid month year :
  get_monthly_data db uid month year =
  filter (in_month month year) (get_expenses db uid).
Proof.
  unfold get_monthly_data. now destruct (get_expenses db uid).
Qed.

(** X16: [get_monthly_data] returns the user's rows dated in the month of
    the year, in the order of [get_expenses], the latest first; no row
    for a month that is not one of 1 to 12; and every row of the user is
    in the slice of its own month and in no other. *)
Theorem get_monthly_data_slices db uid month year :
  (forall r, In r (get_monthly_data db uid month year) <->
             In r (get_expenses db uid) /\
             dt_month r = month /\ dt_year r = year) /\
  subseq (get_monthly_data db uid month year) (get_expenses db uid) /\
  StronglySorted (fun a b => date b <= date a)
    (get_monthly_data db uid month year) /\
  (~ 1 <= month <= 12 -> get_monthly_data db uid month year = []) /\
  (forall r month' year',
     In r (get_monthly_data db uid month year) ->
     In r (get_monthly_data db uid month' year') ->
     month' = month /\ year' = year).
Proof.
  rewrite get_monthly_data_as_filter.
  split; [|split; [|split; [|split]]].
  - intros r. rewrite filter_In, in_month_iff. reflexivity.
  - apply filter_subseq.
  - apply filter_StronglySorted, get_expenses_sorted.
  - intros Hm. apply filter_all_false. intros r _.
    destruct (in_month month year r) eqn:E; [|reflexivity].
    apply in_month_iff in E as [E _].
    pose proof (ord2ymd_month_range (date r)) as Hr.
    unfold dt_month in E. lia.
  - intros r month' year' H1 H2. rewrite get_monthly_data_as_filter in H2.
    apply filter_In in H1 as [_ H1]. apply filter_In in H2 as [_ H2].
    apply in_month_iff in H1, H2. destruct H1, H2. split; congruence.
Qed.

Lemma get_monthly_data_slices_witness :
  get_monthly_data sample_db 1 13 2024 = [] /\
  In (select_columns lunch_row) (get_monthly_data sample_db 1 1 2024).
Proof.
  destruct (get_monthly_data_slices sample_db 1 13 2024) as (_ & _ & _ & Hnone & _).
  destruct (get_monthly_data_slices sample_db 1 1 2024) as (Hin & _).
  split; [apply Hnone; lia|].
  apply Hin. split; [simpl; tauto|]. split; reflexivity.
Defined.

(** ** The monthly series *)

Lemma period_compare_eq a b : period_compare a b = Eq <-> a = b.
Proof.
  destruct a as [y m], b as [y' m']. unfold period_compare. simpl.
  destruct (Z.compare_spec y y') as [->|H|H].
  - rewrite Z.compare_eq_iff. split; [now intros ->|now intros [= ->]].
  - split; [discriminate|]. intros [= -> _]. lia.
  - split; [discriminate|]. intros [= -> _]. lia.
Qed.

Lemma period_compare_lt a b :
  period_compare a b = Lt <->
  fst a < fst b \/ (fst a = fst b /\ snd a < snd b).
Proof.
  destruct a as [y m], b as [y' m']. unfold period_compare. simpl.
  destruct (Z.compare_spec y y') as [->|H|H].
  - rewrite Z.compare_lt_iff. lia.
  - split; [lia|reflexivity].
  - split; [discriminate|lia].
Qed.

Lemma period_compare_antisym a b :
  period_compare a b = CompOpp (period_compare b a).
Proof.
  destruct a as [y m], b as [y' m']. unfold period_compare. simpl.
  rewrite (Z.compare_antisym y' y), (Z.compare_antisym m' m).
  destruct (y' ?= y); reflexivity.
Qed.

Lemma period_compare_trans a b c :
  period_compare a b = Lt -> period_compare b c = Lt -> period_compare a c = Lt.
Proof. rewrite !period_compare_lt. lia. Qed.

Lemma same_key_period y m r :
  same_key period_compare (y, m) (to_period_M r) = in_month m y r.
Proof.
  unfold same_key, in_month, to_period_M.
  destruct (period_compare (y, m) (dt_year r, dt_month r)) eqn:E.
  - apply period_compare_eq in E. injection E as -> ->.
    now rewrite !Z.eqb_refl.
  - symmetry. apply not_true_is_false. intros H.
    apply andb_true_iff in H as [H1 H2]. apply Z.eqb_eq in H1, H2.
    assert (Er : period_compare (y, m) (dt_year r, dt_month r) = Eq)
      by (apply period_compare_eq; congruence).
    congruence.
  - symmetry. apply not_true_is_false. intros H.
    apply andb_true_iff in H as [H1 H2]. apply Z.eqb_eq in H1, H2.
    assert (Er : period_compare (y, m) (dt_year r, dt_month r) = Eq)
      by (apply period_compare_eq; congruence).
    congruence.
Qed.

(** X17: the monthly series of the Analytics page has one entry for each
    month in which the frame has a row, the earlier month first, and the
    entry of a month is the sum of the amounts of the rows dated in it. *)
Theorem monthly_spending_sound expenses_df :
  StronglySorted
    (fun a b => fst (fst a) < fst (fst b) \/
                (fst (fst a) = fst (fst b) /\ snd (fst a) < snd (fst b)))
    (monthly_spending expenses_df) /\
  (forall y m, In (y, m) (map fst (monthly_spending expenses_df)) <->
               exists r, In r expenses_df /\ dt_year r = y /\ dt_month r = m) /\
  (forall y m t, In (y, m, t) (monthly_spending expenses_df) ->
     (t == Qsum (map amount (filter (in_month m y) expenses_df)))%Q).
Proof.
  set (rows := map (fun r => (to_period_M r, amount r)) expenses_df).
  destruct (groupby_agg_spec period_compare period_compare_eq
              period_compare_antisym period_compare_trans rows)
    as (Hs & Hk & Hg & _).
  unfold monthly_spending, groupby_sum. fold rows.
  assert (Hfst : map fst (map (fun e : Z * Z * (Q * Z) => (fst e, fst (snd e)))
                              (groupby_agg period_compare rows)) =
                 map fst (groupby_agg period_compare rows)).
  { rewrite map_map. reflexivity. }
  split; [|split].
  - apply StronglySorted_map_inv with (f := fst)
      (R := fun a b : Z * Z => fst a < fst b \/ (fst a = fst b /\ snd a < snd b)).
    rewrite Hfst. eapply StronglySorted_weaken; [|exact Hs].
    intros a b. apply period_compare_lt.
  - intros y m. rewrite Hfst, Hk. unfold rows. rewrite map_map. simpl.
    rewrite in_map_iff. unfold to_period_M. split.
    + intros (r & [= <- <-] & Hin). eauto.
    + intros (r & Hin & <- & <-). eauto.
  - intros y m t Hin.
    apply in_map_iff in Hin as ([k [s n]] & [= -> <-] & Hin).
    destruct (Hg _ _ _ Hin) as [Hsum _]. rewrite Hsum.
    unfold group_rows, rows. rewrite filter_map_comm, map_map. simpl.
    rewrite (filter_ext _ (in_month m y)); [reflexivity|].
    intros r. apply same_key_period.
Qed.

Lemma monthly_spending_sound_witness :
  (80 # 4 == Qsum (map amount (filter (in_month 1 2024) sample_frame)))%Q.
Proof.
  apply (proj2 (proj2 (monthly_spending_sound sample_frame)) 2024 1 (80 # 4)%Q).
  left. reflexivity.
Defined.

(** ** Recent expenses *)

Lemma Qsum_filter_le {A : Type} (f : A -> Q) (p : A -> bool) l :
  (forall x, In x l -> (0 <= f x)%Q) ->
  (0 <= Qsum (map f (filter p l)) <= Qsum (map f l))%Q.
Proof.
  induction l as [|a l IH]; intros H; cbn [filter map].
  - unfold Qsum. simpl. split; apply Qle_refl.
  - assert (Ha : (0 <= f a)%Q) by (apply H; now left).
    assert (Hl : (0 <= Qsum (map f (filter p l)) <= Qsum (map f l))%Q).
    { apply IH. intros x Hx. apply H. now right. }
    destruct (p a); cbn [map]; rewrite ?Qsum_cons; split; lra.
Qed.

(** X18: when no amount is negative, the "Last 30 Days" figure of the
    dashboard lies between 0 and the "Total Spent" figure. *)
Theorem last_30_days_within_total db uid now :
  (forall r, In r (get_expenses db uid) -> (0 <= amount r)%Q) ->
  (0 <= last_30_days_total db uid now <=
   Qsum (map amount (get_expenses db uid)))%Q.
Proof.
  intros H. unfold last_30_days_total, get_filtered_expenses.
  rewrite filter_frame_as_filter.
  pose proof (Qsum_filter_le amount
                (fun r => keeps_category None r && keeps_recent now (Some 30) r)
                (get_expenses db uid) H) as Hle.
  destruct (empty _); simpl; [|exact Hle].
  split; [apply Qle_refl|]. destruct Hle as [H1 H2].
  now apply Qle_trans with (2 := H2).
Qed.

Lemma last_30_days_within_total_witness :
  (0 <= last_30_days_total sample_db 1 (to_datetime 738920) <=
   Qsum (map amount (get_expenses sample_db 1)))%Q.
Proof.
  apply (last_30_days_within_total sample_db 1).
  intros r [<-|[<-|[<-|[]]]]; discriminate.
Defined.

Lemma filter_implied {A : Type} (p q : A -> bool) l :
  (forall x, p x = true -> q x = true) ->
  filter p l = filter p (filter q l).
Proof.
  intros H. induction l as [|a l IH]; simpl; [reflexivity|].
  destruct (p a) eqn:Ep.
  - rewrite (H a Ep). simpl. rewrite Ep. now f_equal.
  - destruct (q a); simpl; [rewrite Ep|]; assumption.
Qed.

(** X19: a longer period shows more: for periods of [n1 <= n2] days, with
    the same category, the rows of the shorter period are rows of the
    longer one, in the same order, and the rows of any period are rows of
    "All Time". *)
Theorem filter_period_monotone df now filter_category n1 n2 :
  0 < n1 <= n2 ->
  subseq (filter_frame df now filter_category (Some n1))
         (filter_frame df now filter_category (Some n2)) /\
  subseq (filter_frame df now filter_category (Some n2))
         (filter_frame df now filter_category None).
Proof.
  intros Hn. rewrite !filter_frame_as_filter. split.
  - rewrite (filter_implied
               (fun r => keeps_category filter_category r &&
                         keeps_recent now (Some n1) r)
               (fun r => keeps_category filter_category r &&
                         keeps_recent now (Some n2) r)).
    + apply filter_subseq.
    + intros r H. apply andb_true_iff in H as [Hc Hr].
      rewrite Hc. simpl in *. apply orb_true_iff in Hr as [Hr|Hr].
      * apply Z.eqb_eq in Hr. lia.
      * apply orb_true_iff. right. apply Z.leb_le in Hr. apply Z.leb_le.
        unfold timedelta, usec_per_day in *. nia.
  - rewrite (filter_implied
               (fun r => keeps_category filter_category r &&
                         keeps_recent now (Some n2) r)
               (fun r => keeps_category filter_category r &&
                         keeps_recent now None r)).
    + apply filter_subseq.
    + intros r H. apply andb_true_iff in H as [Hc _].
      rewrite Hc. reflexivity.
Qed.

Lemma filter_period_monotone_witness :
  subseq (filter_frame sample_frame (to_datetime 738920) None (Some 7))
         (filter_frame sample_frame (to_datetime 738920) None (Some 30)).
Proof.
  apply (filter_period_monotone sample_frame (to_datetime 738920) None 7 30).
  lia.
Defined.

(** ** The orders of the table *)

Lemma sort_by_before_total o a b :
  sort_by_before o a b = false -> sort_by_before o b a = true.
Proof.
  destruct o; simpl.
  - rewrite Z.leb_gt, Z.leb_le. lia.
  - rewrite Z.leb_gt, Z.leb_le. lia.
  - apply amount_desc_total.
  - intros H. apply Qle_bool_iff.
    destruct (Qlt_le_dec (amount b) (amount a)) as [Hlt|Hle].
    + now apply Qlt_le_weak.
    + apply Qle_bool_iff in Hle. congruence.
Qed.

Lemma sort_by_before_trans o a b c :
  sort_by_before o a b = true -> sort_by_before o b c = true ->
  sort_by_before o a c = true.
Proof.
  destruct o; simpl.
  - rewrite !Z.leb_le. lia.
  - rewrite !Z.leb_le. lia.
  - apply amount_desc_trans.
  - rewrite !Qle_bool_iff. intros H1 H2. now apply Qle_trans with (amount b).
Qed.

(** X20: each of the four orders of the View Expenses table has a
    result; a result shows the rows of the filtered frame, and as many;
    and the frame [get_filtered_expenses] returns has the newest date
    first already, so that it is itself a result for "Date (Newest)". *)
Theorem sort_values_by_keeps_rows o filtered_df :
  (exists out, sort_values_by o filtered_df out) /\
  (forall out, sort_values_by o filtered_df out ->
     (forall r, In r out <-> In r filtered_df) /\
     len out = len filtered_df) /\
  (forall db uid now filter_category days,
     sort_values_by Date_Newest
       (get_filtered_expenses db uid now filter_category days)
       (get_filtered_expenses db uid now filter_category days)).
Proof.
  split; [|split].
  - exists (isort (sort_by_before o) filtered_df). split; [apply isort_perm|].
    apply isort_sorted;
      [apply sort_by_before_total | apply sort_by_before_trans].
  - intros out [Hperm _]. split.
    + intros r. split; apply Permutation_in; [symmetry|]; assumption.
    + unfold len. now rewrite (Permutation_length Hperm).
  - intros db uid now filter_category days. split; [reflexivity|].
    unfold get_filtered_expenses. rewrite filter_frame_as_filter.
    apply filter_StronglySorted.
    eapply StronglySorted_weaken; [|apply get_expenses_sorted].
    intros a b H. simpl. now apply Z.leb_le.
Qed.

Lemma sort_values_by_keeps_rows_witness :
  len (isort (sort_by_before Amount_Low_High) sample_frame) = len sample_frame.
Proof.
  apply (sort_values_by_keeps_rows Amount_Low_High sample_frame).
  split; [apply isort_perm|].
  apply isort_sorted; [apply sort_by_before_total | apply sort_by_before_trans].
Defined.

(** ** Deleting one's own expense *)

Lemma delete_only_row l r :
  NoDup (map e_id l) -> In r l ->
  Permutation
    (r :: filter (fun x => negb (delete_matches (e_id r) (user_id r) x)) l) l /\
  filter (delete_matches (e_id r) (user_id r)) l = [r].
Proof.
  induction l as [|a l IH]; simpl; intros Hnd Hin; [destruct Hin|].
  inversion Hnd as [|? ? Ha Hl]; subst.
  destruct Hin as [->|Hin].
  - assert (Hm : delete_matches (e_id r) (user_id r) r = true)
      by (apply delete_matches_iff; auto).
    rewrite Hm. simpl.
    assert (Hnone : forall x, In x l ->
              delete_matches (e_id r) (user_id r) x = false).
    { intros x Hx. destruct (delete_matches _ _ x) eqn:E; [|reflexivity].
      apply delete_matches_iff in E as [E _]. exfalso. apply Ha.
      rewrite <- E. now apply in_map. }
    rewrite (filter_all_false _ _ Hnone). split; [|reflexivity].
    rewrite filter_all_true; [reflexivity|].
    intros x Hx. now rewrite (Hnone x Hx).
  - assert (Hm : delete_matches (e_id r) (user_id r) a = false).
    { destruct (delete_matches _ _ a) eqn:E; [|reflexivity].
      apply delete_matches_iff in E as [E _]. exfalso. apply Ha.
      rewrite E. now apply in_map. }
    rewrite Hm. simpl. destruct (IH Hl Hin) as [IH1 IH2]. split; [|exact IH2].
    rewrite perm_swap. now apply perm_skip.
Qed.

(** X21: in a table whose ids are unique, the owner's deletion of one of
    his expenses answers [True] and removes that row and no other: the
    table is left with the other rows, all of them. *)
Theorem delete_own_expense_removes_one db r :
  wf_db db ->
  In r (expenses db) ->
  snd (delete_expense db (user_id r) (e_id r)) = true /\
  Permutation
    (r :: expenses (fst (delete_expense db (user_id r) (e_id r))))
    (expenses db) /\
  ~ In r (expenses (fst (delete_expense db (user_id r) (e_id r)))).
Proof.
  intros ((_ & Hnd & _) & _) Hin.
  destruct (delete_only_row _ _ Hnd Hin) as [Hperm Hone].
  unfold delete_expense, len. simpl. rewrite Hone.
  split; [reflexivity|]. split; [exact Hperm|].
  intros H. apply filter_In in H as [_ H].
  assert (Hm : delete_matches (e_id r) (user_id r) r = true)
    by (apply delete_matches_iff; auto).
  rewrite Hm in H. discriminate.
Qed.

Lemma delete_own_expense_removes_one_witness :
  snd (delete_expense sample_db 1 1) = true /\
  Permutation (lunch_row :: expenses (fst (delete_expense sample_db 1 1)))
              (expenses sample_db) /\
  ~ In lunch_row (expenses (fst (delete_expense sample_db 1 1))).
Proof.
  apply (delete_own_expense_removes_one sample_db lunch_row).
  - apply (reachable_wf toy_digest). repeat constructor.
  - left. reflexivity.
Defined.

(** ** Amounts written through the form *)

(** X22: the Add Expense form keeps every amount of the table positive,
    and so does a deletion. *)
Theorem add_expense_page_keeps_positive db now uid d cat amt desc :
  (forall r, In r (expenses db) -> (0 < e_amount r)%Q) ->
  (forall r,
     In r (expenses (fst (add_expense_page db now uid d cat amt desc))) ->
     (0 < e_amount r)%Q) /\
  (forall v expense_id r,
     In r (expenses (fst (delete_expense db v expense_id))) ->
     (0 < e_amount r)%Q).
Proof.
  intros H. split.
  - intros r. unfold add_expense_page.
    destruct (Qlt_bool 0 amt) eqn:E; simpl; [|apply H].
    intros Hin. apply in_app_or in Hin as [Hin|[<-|[]]]; [now apply H|].
    simpl. now apply Qlt_bool_iff.
  - intros v expense_id r Hin. simpl in Hin. apply filter_In in Hin as [Hin _].
    now apply H.
Qed.

Lemma add_expense_page_keeps_positive_witness :
  Forall (fun r => (0 < e_amount r)%Q)
    (expenses (fst (add_expense_page sample_db 9 1 738920 "Other" (-3) ""))).
Proof.
  apply Forall_forall.
  apply (add_expense_page_keeps_positive sample_db 9 1 738920 "Other" (-3) "").
  intros r [<-|[<-|[<-|[]]]]; reflexivity.
Defined.

(** ** A user without expenses *)



(** ** Further witnesses *)

Lemma delete_expense_then_listed_witness :
  ~ In (select_columns lunch_row)
       (get_expenses (fst (delete_expense sample_db 1 1)) 1).
Proof.
  intros H.
  apply (delete_expense_then_listed sample_db 1 1) in H as [_ H].
  now apply H.
Defined.

Lemma monthly_breakdown_sound_witness :
  Forall (fun e =>
            (exists z, Percentage e = (z # 100)%Q) /\
            (Qabs (Percentage e -
                   Total e /
                   Qsum (map amount (get_monthly_data sample_db 1 1 2024)) * 100)
             <= 1 # 200)%Q)
         (sort_values_stable
            (monthly_breakdown_unsorted (get_monthly_data sample_db 1 1 2024))).
Proof.
  destruct (monthly_breakdown_sound (get_monthly_data sample_db 1 1 2024))
    as [_ Hsound].
  destruct (Hsound _ (sort_values_stable_admissible _)) as (_ & _ & _ & Hpct & _).
  apply Forall_forall. apply Hpct.
  intros r [<-|[<-|[]]]; reflexivity.
Defined.

Lemma category_totals_sound_witness :
  (80 # 4 == Qsum (map amount (filter (fun r => (category r =? "Food")%string)
                                      sample_frame)))%Q.
Proof.
  apply (proj1 (proj2 (proj2 (category_totals_sound sample_frame)))
           "Food" (80 # 4)%Q).
  left. reflexivity.
Defined.
